(** * mydentitycolor PDF downloader: a shallow embedding of [main.py]

    The Python program fetches one page, extracts the links that point to PDF
    documents, and downloads each of them into a directory.  This file embeds
    its functions in Rocq and proves the properties its specification states.

    Data representation.
    - A Python [str] is a list of Unicode code points, each an [N].
    - The file system is a finite map from path names to nodes.
    - Exceptions are values of type [exn]; statements run in a state and
      exception monad over the [world] (file system, console, request log).
    - The HTTP transport, the HTML parser and the URL validator are the
      program's external collaborators: they are variables of a section. *)

From Stdlib Require Import NArith ZArith String Ascii Lia.
From stdpp Require Import base option list gmap.

Local Open Scope N_scope.
Local Open Scope list_scope.

(** * The model *)

(** ** Strings *)

Abbreviation str := (list N).

(** Code points of an ASCII literal. *)
Definition cp (s : string) : str :=
  List.map N_of_ascii (list_ascii_of_string s).
Arguments cp s%_string : simpl never.

Definition ch_dot : N := 46.
Definition ch_slash : N := 47.
Definition ch_underscore : N := 95.
Definition ch_quote : N := 34.
Definition ch_percent : N := 37.

Definition in_range (lo hi c : N) : bool := (lo <=? c) && (c <=? hi).

(** [str.lower()], one code point at a time.  The mapping is Python's for
    every code point up to U+00FF and for the two code points above it whose
    lower case contains an ASCII letter (U+0130 and the Kelvin sign U+212A);
    the other cased letters above U+00FF, which Python sends to further
    non-ASCII code points, are left in place. *)
Definition lower_char (c : N) : str :=
  if in_range 65 90 c then [c + 32]
  else if in_range 192 222 c && negb (c =? 215) then [c + 32]
  else if c =? 304 then [105; 775]
  else if c =? 8490 then [107]
  else [c].

Definition lower (s : str) : str := flat_map lower_char s.

(** [s == t] on strings. *)
Fixpoint str_eqb (s t : str) : bool :=
  match s, t with
  | [], [] => true
  | a :: s', b :: t' => (a =? b) && str_eqb s' t'
  | _, _ => false
  end.

(** [s.startswith(p)] and [s.endswith(p)]. *)
Fixpoint startswith (s p : str) {struct p} : bool :=
  match p, s with
  | [], _ => true
  | b :: p', a :: s' => (a =? b) && startswith s' p'
  | _ :: _, [] => false
  end.

Definition endswith (s p : str) : bool :=
  (length p <=? length s)%nat && str_eqb (drop (length s - length p) s) p.

(** [p in s]: [p] occurs in [s] as a substring. *)
Fixpoint str_in (p s : str) : bool :=
  startswith s p || match s with [] => false | _ :: s' => str_in p s' end.

(** [s.find(c)] and [s.rfind(c)] for a single character, [-1] when absent. *)
Fixpoint find (c : N) (s : str) : Z :=
  match s with
  | [] => (-1)%Z
  | a :: s' =>
      if a =? c then 0%Z
      else let r := find c s' in if (r <? 0)%Z then (-1)%Z else (r + 1)%Z
  end.

Fixpoint rfind (c : N) (s : str) : Z :=
  match s with
  | [] => (-1)%Z
  | a :: s' =>
      let r := rfind c s' in
      if (0 <=? r)%Z then (r + 1)%Z else if a =? c then 0%Z else (-1)%Z
  end.

(** Slices [s[:i]] and [s[i:]] for an index [0 <= i]. *)
Definition upto (i : Z) (s : str) : str := take (Z.to_nat i) s.
Definition from (i : Z) (s : str) : str := drop (Z.to_nat i) s.

(** [s.lstrip(c)], [s.rstrip(c)] and [s.strip(c)] for a one-character set. *)
Fixpoint lstrip (c : N) (s : str) : str :=
  match s with
  | a :: s' => if a =? c then lstrip c s' else s
  | [] => []
  end.

Definition rstrip (c : N) (s : str) : str := reverse (lstrip c (reverse s)).

Definition strip (c : N) (s : str) : str := rstrip c (lstrip c s).

(** [s.lstrip(chars)] for a set of characters given by its test. *)
Fixpoint lstrip_by (f : N -> bool) (s : str) : str :=
  match s with
  | a :: s' => if f a then lstrip_by f s' else s
  | [] => []
  end.

(** [s.find(c, start)] for [0 <= start <= len(s)]. *)
Definition find_from (c : N) (start : Z) (s : str) : Z :=
  let r := find c (from start s) in
  if (r <? 0)%Z then (-1)%Z else (r + start)%Z.

(** [s.split(c, 1)[0]]: the text before the first [c], all of [s] without. *)
Definition before_first (c : N) (s : str) : str :=
  let i := find c s in
  if (i <? 0)%Z then s else upto i s.

(** ** [os.path] (POSIX flavour) *)

(** The loop of [genericpath._splitext] that skips the leading dots of the
    last component: [true] when some character before the last dot is not a
    dot. *)
Fixpoint has_non_dot (l : str) : bool :=
  match l with
  | [] => false
  | a :: l' => if negb (a =? ch_dot) then true else has_non_dot l'
  end.

(** [os.path.splitext(p)]: the extension starts at the last dot of the last
    path component, and a component made of leading dots only has none. *)
Definition splitext (p : str) : str * str :=
  let sepIndex := rfind ch_slash p in
  let dotIndex := rfind ch_dot p in
  if (sepIndex <? dotIndex)%Z then
    if has_non_dot (from (sepIndex + 1) (upto dotIndex p))
    then (upto dotIndex p, from dotIndex p)
    else (p, [])
  else (p, []).

(** [os.path.basename(p)]. *)
Definition basename (p : str) : str := from (rfind ch_slash p + 1) p.

(** [os.path.join(a, b)]. *)
Definition path_join (a b : str) : str :=
  if startswith b [ch_slash] then b
  else if str_eqb a [] || endswith a [ch_slash] then a ++ b
  else a ++ ch_slash :: b.

(** ** Filename sanitization (lines 116-121 of [download_pdf]) *)

Definition is_lower_alnum (c : N) : bool :=
  in_range 97 122 c || in_range 48 57 c.

(** [re.sub(r"[^a-z0-9]", "_", s)]. *)
Definition replace_non_alnum (s : str) : str :=
  List.map (fun c => if is_lower_alnum c then c else ch_underscore) s.

(** [re.sub(r"_+", "_", s)]: every maximal run of underscores becomes one
    underscore; an underscore followed by another one is dropped. *)
Fixpoint collapse_underscores (s : str) : str :=
  match s with
  | [] => []
  | a :: s' =>
      match s' with
      | b :: _ =>
          if (a =? ch_underscore) && (b =? ch_underscore)
          then collapse_underscores s'
          else a :: collapse_underscores s'
      | [] => [a]
      end
  end.

Definition sanitize_stem (name_part : str) : str :=
  let name_part := lower name_part in
  let name_part := replace_non_alnum name_part in
  let name_part := collapse_underscores name_part in
  strip ch_underscore name_part.

Definition sanitize (filename : str) : str :=
  let '(name_part, ext) := splitext filename in
  sanitize_stem name_part ++ lower ext.

(** The part of a name before its last dot (the whole name without a dot). *)
Definition stem_of (r : str) : str :=
  let i := rfind ch_dot r in
  if (i <? 0)%Z then r else upto i r.

(** ** Regular expressions of [re], as far as [download_pdf] uses them

    Both patterns are sequences of single-character items, each with a greedy
    quantifier, and have one capturing group around one item.  The matcher
    backtracks the way [re] does: a greedy item first takes as many
    characters as it can and gives them back one at a time. *)

Inductive quant := One | Opt | Star | Plus.

Record item := Item { accepts : N -> bool; rep : quant; grouped : bool }.

(** The text of group 1: the characters the grouped item consumed. *)
Definition keep (it : item) (consumed later : str) : str :=
  if grouped it then consumed else later.

(** A greedy item under [*] or [+]: [acc] is what it has consumed, [k] the
    rest of the pattern.  It takes one more character when it can, and
    leaves the rest to [k] when that fails. *)
Fixpoint many (it : item) (k : str -> option str) (acc s : str) : option str :=
  match s with
  | c :: s' =>
      if accepts it c then
        match many it k (acc ++ [c]) s' with
        | Some r => Some r
        | None => keep it acc <$> k s
        end
      else keep it acc <$> k s
  | [] => keep it acc <$> k []
  end.

(** [re.match] from the start of [s], reduced to the text of group 1. *)
Fixpoint match_here (p : list item) : str -> option str :=
  match p with
  | [] => fun _ => Some []
  | it :: p' =>
      let k := match_here p' in
      fun s =>
        match rep it with
        | Star => many it k [] s
        | Plus =>
            match s with
            | c :: s' => if accepts it c then many it k [c] s' else None
            | [] => None
            end
        | One =>
            match s with
            | c :: s' => if accepts it c then keep it [c] <$> k s' else None
            | [] => None
            end
        | Opt =>
            match s with
            | c :: s' =>
                if accepts it c then
                  match keep it [c] <$> k s' with
                  | Some r => Some r
                  | None => keep it [] <$> k s
                  end
                else keep it [] <$> k s
            | [] => keep it [] <$> k []
            end
        end
  end.

(** [re.search(p, s)], reduced to [match.group(1)]: the leftmost start at
    which the pattern matches. *)
Fixpoint search (p : list item) (s : str) : option str :=
  match match_here p s with
  | Some g => Some g
  | None => match s with [] => None | _ :: s' => search p s' end
  end.

(** The simple lower-case mapping [re.IGNORECASE] compares with. *)
Definition sre_lower (c : N) : N :=
  if in_range 65 90 c then c + 32
  else if in_range 192 222 c && negb (c =? 215) then c + 32
  else if c =? 304 then 105
  else if c =? 8490 then 107
  else c.

(** A literal lower-case ASCII letter under [re.IGNORECASE]; [re] adds the
    dotless i to [i] and the long s to [s]. *)
Definition lit_ic (l c : N) : bool :=
  let c' := sre_lower c in
  (c' =? l) || ((l =? 105) && (c' =? 305)) || ((l =? 115) && (c' =? 383)).

(** [\s] on [str] patterns. *)
Definition is_space (c : N) : bool :=
  in_range 9 13 c || in_range 28 32 c || (c =? 133) || (c =? 160)
  || (c =? 5760) || in_range 8192 8202 c || (c =? 8232) || (c =? 8233)
  || (c =? 8239) || (c =? 8287) || (c =? 12288).

Definition is_char (l c : N) : bool := c =? l.
Definition not_apostrophe (c : N) : bool := negb (c =? 39).

(** The classes of the two groups: any character but [;], CR and LF, and,
    in the simple pattern, but the double quote as well. *)
Definition not_semi_crlf (c : N) : bool :=
  negb ((c =? 59) || (c =? 13) || (c =? 10)).
Definition not_quote_semi_crlf (c : N) : bool :=
  negb ((c =? ch_quote) || (c =? 59) || (c =? 13) || (c =? 10)).

Definition word_ic (w : str) : list item :=
  List.map (fun l => Item (lit_ic l) One false) w.

(** The pattern [filename\*\s*=\s*[^']*''([^;\r\n]+)] of line 97, with
    [re.IGNORECASE]. *)
Definition extended_re : list item :=
  word_ic (cp "filename")
  ++ [ Item (is_char 42) One false; Item is_space Star false;
       Item (is_char 61) One false; Item is_space Star false;
       Item not_apostrophe Star false;
       Item (is_char 39) One false; Item (is_char 39) One false;
       Item not_semi_crlf Plus true ].

(** The pattern [filename\s*=\s*Q?([^Q;\r\n]+)Q?] of line 103, where [Q] is
    the double quote, with [re.IGNORECASE]. *)
Definition simple_re : list item :=
  word_ic (cp "filename")
  ++ [ Item is_space Star false; Item (is_char 61) One false;
       Item is_space Star false; Item (is_char ch_quote) Opt false;
       Item not_quote_semi_crlf Plus true;
       Item (is_char ch_quote) Opt false ].

(** ** [urllib.parse] *)

Definition is_hexdig (c : N) : bool :=
  in_range 48 57 c || in_range 65 70 c || in_range 97 102 c.

Definition hex_value (c : N) : N :=
  if in_range 48 57 c then c - 48
  else if in_range 65 70 c then c - 55
  else c - 87.

(** [unquote_to_bytes] on an ASCII string: [%XX] with two hexadecimal digits
    becomes one byte, any other [%] stays. *)
Fixpoint unquote_to_bytes (s : str) : list N :=
  match s with
  | [] => []
  | c :: t =>
      if c =? ch_percent then
        match t with
        | a :: b :: s' =>
            if is_hexdig a && is_hexdig b
            then (16 * hex_value a + hex_value b) :: unquote_to_bytes s'
            else c :: unquote_to_bytes t
        | _ => c :: unquote_to_bytes t
        end
      else c :: unquote_to_bytes t
  end.

Definition is_cont (b : N) : bool := in_range 128 191 b.

(** The second byte a three- or four-byte sequence admits after its lead. *)
Definition second_ok (b0 b1 : N) : bool :=
  if b0 =? 224 then in_range 160 191 b1
  else if b0 =? 237 then in_range 128 159 b1
  else if b0 =? 240 then in_range 144 191 b1
  else if b0 =? 244 then in_range 128 143 b1
  else is_cont b1.

Definition replacement : N := 65533.

(** [bytes.decode("utf-8", "replace")]: every maximal ill-formed prefix of a
    sequence becomes one U+FFFD and decoding resumes at the offending byte. *)
Fixpoint utf8_decode (bs : list N) : str :=
  match bs with
  | [] => []
  | b0 :: r0 =>
      if b0 <? 128 then b0 :: utf8_decode r0
      else if in_range 194 223 b0 then
        match r0 with
        | [] => [replacement]
        | b1 :: r1 =>
            if is_cont b1
            then ((b0 - 192) * 64 + (b1 - 128)) :: utf8_decode r1
            else replacement :: utf8_decode r0
        end
      else if in_range 224 239 b0 then
        match r0 with
        | [] => [replacement]
        | b1 :: r1 =>
            if second_ok b0 b1 then
              match r1 with
              | [] => [replacement]
              | b2 :: r2 =>
                  if is_cont b2
                  then ((b0 - 224) * 4096 + (b1 - 128) * 64 + (b2 - 128))
                       :: utf8_decode r2
                  else replacement :: utf8_decode r1
              end
            else replacement :: utf8_decode r0
        end
      else if in_range 240 244 b0 then
        match r0 with
        | [] => [replacement]
        | b1 :: r1 =>
            if second_ok b0 b1 then
              match r1 with
              | [] => [replacement]
              | b2 :: r2 =>
                  if is_cont b2 then
                    match r2 with
                    | [] => [replacement]
                    | b3 :: r3 =>
                        if is_cont b3
                        then ((b0 - 240) * 262144 + (b1 - 128) * 4096
                              + (b2 - 128) * 64 + (b3 - 128))
                             :: utf8_decode r3
                        else replacement :: utf8_decode r2
                    end
                  else replacement :: utf8_decode r1
              end
            else replacement :: utf8_decode r0
        end
      else replacement :: utf8_decode r0
  end.

(** The loop of [unquote]: maximal ASCII runs are percent-decoded and read as
    UTF-8, the characters between them are copied. *)
Fixpoint unquote_runs (run s : str) : str :=
  match s with
  | [] => utf8_decode (unquote_to_bytes run)
  | c :: s' =>
      if c <? 128 then unquote_runs (run ++ [c]) s'
      else utf8_decode (unquote_to_bytes run) ++ c :: unquote_runs [] s'
  end.

(** [urllib.parse.unquote(s)] *)
Definition unquote (s : str) : str :=
  if negb (existsb (fun c => c =? ch_percent) s) then s else unquote_runs [] s.

Definition is_ascii_alpha (c : N) : bool :=
  in_range 65 90 c || in_range 97 122 c.

(** Membership in [scheme_chars]: letters, digits, [+], [-] and [.]. *)
Definition is_scheme_char (c : N) : bool :=
  is_ascii_alpha c || in_range 48 57 c || (c =? 43) || (c =? 45) || (c =? 46).

Definition uses_params : list str :=
  [ []; cp "ftp"; cp "hdl"; cp "prospero"; cp "http"; cp "imap"; cp "https";
    cp "shttp"; cp "rtsp"; cp "rtspu"; cp "sip"; cp "sips"; cp "mms";
    cp "sftp"; cp "tel" ].

(** The scheme and the rest of a URL, as [urlsplit] separates them. *)
Definition split_scheme (url : str) : str * str :=
  let i := find 58 url in
  if (0 <? i)%Z
     && match url with c :: _ => is_ascii_alpha c | [] => false end
     && forallb is_scheme_char (upto i url)
  then (lower (upto i url), from (i + 1) url)
  else ([], url).

(** [_splitnetloc(url, 2)] *)
Definition splitnetloc (url : str) : str * str :=
  let delim :=
    fold_left
      (fun delim c =>
         let wdelim := find_from c 2 url in
         if (0 <=? wdelim)%Z then Z.min delim wdelim else delim)
      [47; 63; 35] (Z.of_nat (length url)) in
  (from 2 (upto delim url), from delim url).

(** [_splitparams(url)], reduced to the part before the parameters;
    [urlparse] calls it on a URL that holds a [;]. *)
Definition splitparams (url : str) : str :=
  if existsb (fun c => c =? ch_slash) url then
    let i := find_from 59 (rfind ch_slash url) url in
    if (i <? 0)%Z then url else upto i url
  else upto (find 59 url) url.

Section UrlParse.

(** [urlsplit] validates a host in brackets ([_check_bracketed_netloc]) and a
    host with non-ASCII characters ([_checknetloc], under NFKC); the outcome
    of these two library checks is a parameter. *)
Variable netloc_valid : str -> bool.

Definition netloc_rejected (netloc : str) : bool :=
  let lb := existsb (fun c => c =? 91) netloc in
  let rb := existsb (fun c => c =? 93) netloc in
  (lb && negb rb) || (rb && negb lb)
  || ((lb && rb) || negb (forallb (fun c => c <? 128) netloc))
     && negb (netloc_valid netloc).

(** [urllib.parse.urlparse(url).path]; [None] when [urlparse] raises
    [ValueError]. *)
Definition urlparse_path (url : str) : option str :=
  let url := lstrip_by (fun c => c <=? 32) url in
  let url := List.filter (fun c => negb ((c =? 9) || (c =? 10) || (c =? 13))) url in
  let '(scheme, url) := split_scheme url in
  let '(netloc, url) :=
    if startswith url [ch_slash; ch_slash] then splitnetloc url else ([], url) in
  if netloc_rejected netloc then None
  else
    let url := before_first 35 url in
    let url := before_first 63 url in
    if existsb (str_eqb scheme) uses_params && existsb (fun c => c =? 59) url
    then Some (splitparams url)
    else Some url.

End UrlParse.

(** ** Exceptions, responses and outcomes *)

(** The exception classes the program meets.  [RequestException] stands for
    [requests.exceptions.RequestException] and all its subclasses; every
    class is a subclass of [Exception]. *)
Inductive exn :=
  | RequestException (msg : str)
  | OSError (msg : str)
  | ValueError (msg : str).

Definition is_request_exception (e : exn) : bool :=
  match e with RequestException _ => true | _ => false end.

Definition is_exception (e : exn) : bool := true.

(** [str(e)] *)
Definition exn_text (e : exn) : str :=
  match e with RequestException m | OSError m | ValueError m => m end.

(** What the program reads of a [requests.Response]: the status, the headers,
    the chunks [iter_content] yields and the exception it may raise after
    them. *)
Record response := Response {
  status_code : Z;
  headers : list (str * str);
  body : list str;
  body_error : option exn
}.

(** [response.headers.get(name, default)] on a case-insensitive dictionary. *)
Fixpoint headers_get (h : list (str * str)) (name default : str) : str :=
  match h with
  | [] => default
  | (k, v) :: h' =>
      if str_eqb (lower k) (lower name) then v else headers_get h' name default
  end.

(** [response.text], the chunks taken together. *)
Definition response_text (r : response) : str := concat (body r).

(** The outcome of one download attempt.  The Python function returns [None]
    and prints one status line per attempt; the outcome is the branch that
    printed it. *)
Inductive outcome :=
  | Downloaded (filename : str)
  | SkippedExisting (filename : str)
  | SkippedNotPdf
  | FetchFailed (reason : str)
  | UnexpectedError (reason : str).

(** ** Filename resolution (lines 93-113 of [download_pdf]) *)

Section Resolve.

Variable netloc_valid : str -> bool.

(** The fallback of lines 110-113. *)
Definition fallback_filename (url : str) : exn + str :=
  match urlparse_path netloc_valid url with
  | None => inl (ValueError (cp "Invalid URL"))
  | Some path =>
      let filename := basename path in
      if negb (endswith filename (cp ".pdf"))
      then inr (filename ++ cp ".pdf")
      else inr filename
  end.

(** The filename before sanitization. *)
Definition resolve_filename (content_disposition url : str) : exn + str :=
  match search extended_re content_disposition with
  | Some g => inr (strip ch_quote g)
  | None =>
      match search simple_re content_disposition with
      | Some g => inr (strip ch_quote g)
      | None => fallback_filename url
      end
  end.

End Resolve.

(** ** The world: file system, console and request log *)

(** A regular file with what it holds (the code points of a text file, the
    bytes of a file written in binary mode) or a directory. *)
Inductive node := File (data : str) | Dir.

Record world := World {
  fs : gmap str node;
  console : list str;
  requests : list str
}.

(** The path without its trailing slashes: the name its entry is kept under.
    The map has one entry per path name, relative to the working directory,
    and does not relate a path to its parent directories: the components [.]
    and [..] are names like others, a directory is made without its parents,
    and a file is opened whatever its parent.  The model is that of the paths
    [main] uses: a name in the working directory ([mydentitycolor.html],
    [PDFs]) and a name in that directory.  The statements about what a path
    holds after a write are made for such paths. *)
Definition fs_key (p : str) : str := rstrip ch_slash p.

(** What [stat] finds at a path: nothing at the empty path, the root
    directory at a path of slashes only, and a regular file only at a path
    without a trailing slash. *)
Definition stat (m : gmap str node) (p : str) : option node :=
  if str_eqb p [] then None
  else
    let k := fs_key p in
    if str_eqb k [] then Some Dir
    else
      match m !! k with
      | Some Dir => Some Dir
      | Some (File d) => if endswith p [ch_slash] then None else Some (File d)
      | None => None
      end.

(** ** Statements: a state and exception monad *)

Definition M (A : Type) : Type := world -> world * (exn + A).

Definition ret {A} (a : A) : M A := fun w => (w, inr a).

Definition raise {A} (e : exn) : M A := fun w => (w, inl e).

Definition bind {A B} (m : M A) (k : A -> M B) : M B :=
  fun w =>
    match m w with
    | (w', inl e) => (w', inl e)
    | (w', inr a) => k a w'
    end.

Notation "'do' x <- m ; k" := (bind m (fun x => k))
  (at level 10, x name, m at level 100, k at level 200).
Notation "m ;; k" := (bind m (fun _ => k))
  (at level 100, k at level 200, right associativity).

(** [try: m except C1 as e: h1 e except C2 as e: h2 e]: the first clause
    whose class test accepts the exception handles it; without one the
    exception goes on to the caller. *)
Fixpoint find_clause {A} (cs : list ((exn -> bool) * (exn -> M A))) (e : exn)
  : option (M A) :=
  match cs with
  | [] => None
  | (c, h) :: cs' => if c e then Some (h e) else find_clause cs' e
  end.

Definition try_except {A} (m : M A) (cs : list ((exn -> bool) * (exn -> M A)))
  : M A :=
  fun w =>
    match m w with
    | (w', inl e) =>
        match find_clause cs e with
        | Some h => h w'
        | None => (w', inl e)
        end
    | r => r
    end.

(** [for x in l: f x] *)
Fixpoint for_each {A} (l : list A) (f : A -> M unit) : M unit :=
  match l with
  | [] => ret tt
  | x :: l' => f x ;; for_each l' f
  end.

Definition lift {A} (r : exn + A) : M A :=
  match r with inl e => raise e | inr a => ret a end.

(** [print(line)] *)
Definition print (line : str) : M unit :=
  fun w => (World (fs w) (console w ++ [line]) (requests w), inr tt).

Definition set_fs (m : gmap str node) (w : world) : world :=
  World m (console w) (requests w).

(** [os.path.exists(path)] and [os.path.isfile(path)] *)
Definition os_path_exists (path : str) : M bool :=
  fun w => (w, inr (bool_decide (is_Some (stat (fs w) path)))).

Definition os_path_isfile (path : str) : M bool :=
  fun w => (w, inr match stat (fs w) path with Some (File _) => true | _ => false end).

(** [os.makedirs(name, exist_ok=True)]: nothing to do at a directory; an
    error at a regular file and at the empty name. *)
Definition os_makedirs (name : str) : M unit :=
  fun w =>
    match stat (fs w) name with
    | Some Dir => (w, inr tt)
    | Some (File _) => (w, inl (OSError (cp "File exists")))
    | None =>
        if str_eqb name [] then (w, inl (OSError (cp "No such file or directory")))
        else
          match fs w !! fs_key name with
          | Some _ => (w, inl (OSError (cp "Not a directory")))
          | None => (set_fs (<[fs_key name := Dir]> (fs w)) w, inr tt)
          end
    end.

(** [open(path, "wb")]: the file is created or emptied; the handle is the
    path.  [open(path, "a")] keeps what the file holds; on a POSIX system
    writing in text mode stores the text as it is given. *)
Definition open_wb (path : str) : M str :=
  fun w =>
    if str_eqb path [] then (w, inl (OSError (cp "No such file or directory")))
    else if endswith path [ch_slash] then (w, inl (OSError (cp "Is a directory")))
    else
      match fs w !! path with
      | Some Dir => (w, inl (OSError (cp "Is a directory")))
      | _ => (set_fs (<[path := File []]> (fs w)) w, inr path)
      end.

Definition open_a (path : str) : M str :=
  fun w =>
    if str_eqb path [] then (w, inl (OSError (cp "No such file or directory")))
    else if endswith path [ch_slash] then (w, inl (OSError (cp "Is a directory")))
    else
      match fs w !! path with
      | Some Dir => (w, inl (OSError (cp "Is a directory")))
      | Some (File _) => (w, inr path)
      | None => (set_fs (<[path := File []]> (fs w)) w, inr path)
      end.

(** [file.write(data)] *)
Definition file_write (file data : str) : M unit :=
  fun w =>
    match fs w !! file with
    | Some (File d) => (set_fs (<[file := File (d ++ data)]> (fs w)) w, inr tt)
    | _ => (w, inr tt)
    end.

(** The file helpers of the source (lines 23-31 and 68-70). *)
Definition append_write_to_file (system_path content : str) : M unit :=
  do file <- open_a system_path;
  file_write file content.

Definition check_file_exists (system_path : str) : M bool :=
  os_path_isfile system_path.

(** What reading in text mode makes of the text a file holds:
    [open(path, "r")] reads with universal newlines, so that CR LF and a CR
    on its own both come back as LF. *)
Fixpoint universal_newlines (s : str) : str :=
  match s with
  | [] => []
  | c :: s' =>
      if c =? 13 then
        10 :: match s' with
              | d :: s'' =>
                  if d =? 10 then universal_newlines s''
                  else universal_newlines s'
              | [] => []
              end
      else c :: universal_newlines s'
  end.

Definition read_a_file (system_path : str) : M str :=
  fun w =>
    match stat (fs w) system_path with
    | Some (File d) => (w, inr (universal_newlines d))
    | Some Dir => (w, inl (OSError (cp "Is a directory")))
    | None => (w, inl (OSError (cp "No such file or directory")))
    end.

(** [response.raise_for_status()]: an [HTTPError], which is a
    [RequestException], for the status codes 4xx and 5xx. *)
Definition raise_for_status (r : response) : M unit :=
  if ((400 <=? status_code r) && (status_code r <? 600))%Z
  then raise (RequestException (cp "HTTP Error"))
  else ret tt.

(** ** The parsed page

    An element of the parsed document: its name and its attributes. *)
Record tag := Tag { tag_name : str; attrs : list (str * str) }.

(** [tag.get(key)] *)
Fixpoint attr_get (l : list (str * str)) (key : str) : option str :=
  match l with
  | [] => None
  | (k, v) :: l' => if str_eqb k key then Some v else attr_get l' key
  end.

(** [soup.find_all(name="a", href=True)] on the elements in document order *)
Definition find_all_a_href (soup : list tag) : list tag :=
  List.filter
    (fun t => str_eqb (tag_name t) (cp "a")
              && bool_decide (is_Some (attr_get (attrs t) (cp "href"))))
    soup.

(** The loop of [parse_html] (lines 57-62) over the anchors found. *)
Fixpoint parse_html_loop (anchors : list tag) (pdf_links : list str) : list str :=
  match anchors with
  | [] => pdf_links
  | a :: rest =>
      let href := default [] (attr_get (attrs a) (cp "href")) in
      let decoded_href := unquote href in
      if endswith (lower decoded_href) (cp ".pdf")
      then parse_html_loop rest (pdf_links ++ [href])
      else parse_html_loop rest pdf_links
  end.

(** The status lines of [download_pdf]; the marks are U+274C, U+26A0 U+FE0F
    and U+2705. *)
Definition msg_not_pdf (url : str) : str :=
  10060 :: cp " Skipped (not a PDF): " ++ url.
Definition msg_exists (filename : str) : str :=
  9888 :: 65039 :: cp " File already exists: " ++ filename.
Definition msg_downloaded (filename : str) : str :=
  9989 :: cp " Downloaded: " ++ filename.
Definition msg_request_failed (error : str) : str :=
  10060 :: cp " Request failed: " ++ error.
Definition msg_unexpected (e : str) : str :=
  10060 :: cp " Unexpected error: " ++ e.

(** The origin of the site, which line 169 puts before a link. *)
Definition site_origin : str := cp "https://mydentitycolor.com".

(** ** The program *)

Section Program.

(** The external collaborators.
    - [http_get n stream url]: what [requests.get(url, stream=stream)] does
      as the [n]-th request of the run: it raises or returns a response.
    - [netloc_valid]: the host checks of [urlsplit].
    - [validators_url s]: whether [validators.url(s)] is [True].
    - [BeautifulSoup html]: the elements of the parsed markup, in document
      order. *)
Variable http_get : nat -> bool -> str -> exn + response.
Variable netloc_valid : str -> bool.
Variable validators_url : str -> bool.
Variable BeautifulSoup : str -> list tag.

(** [requests.get(url, stream=stream)]; without streaming the body is read at
    once, and so is the exception of the body. *)
Definition requests_get (stream : bool) (url : str) : M response :=
  fun w =>
    let w' := World (fs w) (console w) (requests w ++ [url]) in
    match http_get (length (requests w)) stream url with
    | inl e => (w', inl e)
    | inr r =>
        match stream, body_error r with
        | false, Some e => (w', inl e)
        | _, _ => (w', inr r)
        end
    end.

Definition validate_url (given_url : str) : bool := validators_url given_url.

Definition get_url_content (target_url : str) : M (option str) :=
  try_except
    (do response <- requests_get false target_url;
     raise_for_status response ;;
     ret (Some (response_text response)))
    [ (is_request_exception,
       fun error =>
         print (cp "Error fetching URL content: " ++ exn_text error) ;;
         ret None) ].

Definition parse_html (html : str) : list str :=
  let soup := BeautifulSoup html in
  parse_html_loop (find_all_a_href soup) [].

(** The [try] block of [download_pdf] (lines 84-137). *)
Definition download_pdf_try (url download_dir : str) : M outcome :=
  do response <- requests_get true url;
  raise_for_status response ;;
  let content_type := headers_get (headers response) (cp "Content-Type") [] in
  if negb (str_in (cp "application/pdf") (lower content_type)) then
    print (msg_not_pdf url) ;;
    ret SkippedNotPdf
  else
    let content_disposition :=
      headers_get (headers response) (cp "Content-Disposition") [] in
    do filename <- lift (resolve_filename netloc_valid content_disposition url);
    let filename := sanitize filename in
    os_makedirs download_dir ;;
    let file_path := path_join download_dir filename in
    do present <- os_path_exists file_path;
    if present then
      print (msg_exists filename) ;;
      ret (SkippedExisting filename)
    else
      do file <- open_wb file_path;
      for_each (body response)
        (fun chunk =>
           match chunk with
           | [] => ret tt
           | _ => file_write file chunk
           end) ;;
      match body_error response with
      | Some e => raise e
      | None => ret tt
      end ;;
      print (msg_downloaded filename) ;;
      ret (Downloaded filename).

Definition download_pdf (url download_dir : str) : M outcome :=
  try_except (download_pdf_try url download_dir)
    [ (is_request_exception,
       fun error =>
         print (msg_request_failed (exn_text error)) ;;
         ret (FetchFailed (exn_text error)));
      (is_exception,
       fun e =>
         print (msg_unexpected (exn_text e)) ;;
         ret (UnexpectedError (exn_text e))) ].

(** The loop of [main] (lines 167-170). *)
Definition download_loop (extracted_pdf_urls : list str) (download_dir : str)
  : M unit :=
  for_each extracted_pdf_urls
    (fun url =>
       if negb (validate_url url) then
         let url := site_origin ++ url in
         download_pdf url download_dir ;;
         ret tt
       else ret tt).

Definition main : M unit :=
  let url_to_fetch := cp "https://mydentitycolor.com/sds/" in
  let local_html_file := cp "mydentitycolor.html" in
  let download_dir := cp "PDFs" in
  do cached <- check_file_exists local_html_file;
  (if negb cached then
     do webpage_content <- get_url_content url_to_fetch;
     match webpage_content with
     | Some content => append_write_to_file local_html_file content
     | None => ret tt
     end
   else ret tt) ;;
  do cached <- check_file_exists local_html_file;
  if cached then
    do html_file_content <- read_a_file local_html_file;
    let extracted_pdf_urls := parse_html html_file_content in
    download_loop extracted_pdf_urls download_dir
  else ret tt.

End Program.

(** * The specification *)

(** ** Vocabulary of the specification *)

(** A character of a sanitized stem: a lower-case letter, a digit or an
    underscore. *)
Definition is_stem_char (c : N) : bool :=
  is_lower_alnum c || (c =? ch_underscore).

Abbreviation stem_chars s := (Forall (fun c => is_stem_char c = true) s).

(** Two underscores in a row. *)
Definition double_underscore : str := [ch_underscore; ch_underscore].

(** The stem keeps a letter or a digit: some character of the lower-cased
    name is one. *)
Definition keeps_alnum (name_part : str) : bool :=
  existsb is_lower_alnum (lower name_part).

(** The status line that reports an outcome of the download of [url]. *)
Definition report (url : str) (o : outcome) : str :=
  match o with
  | Downloaded filename => msg_downloaded filename
  | SkippedExisting filename => msg_exists filename
  | SkippedNotPdf => msg_not_pdf url
  | FetchFailed reason => msg_request_failed reason
  | UnexpectedError reason => msg_unexpected reason
  end.

(** The outcome [download_pdf] gives an exception of its [try] block. *)
Definition outcome_of_exn (e : exn) : outcome :=
  if is_request_exception e then FetchFailed (exn_text e)
  else UnexpectedError (exn_text e).

(** [raise_for_status] lets the status through. *)
Definition status_passes (r : response) : bool :=
  negb ((400 <=? status_code r) && (status_code r <? 600))%Z.

(** The content-type gate of line 88 lets the response through. *)
Definition is_pdf_response (r : response) : bool :=
  str_in (cp "application/pdf")
    (lower (headers_get (headers r) (cp "Content-Type") [])).

(** The links the loop of [main] downloads: those [validate_url] rejects. *)
Definition downloaded_links (validators_url : str -> bool) (links : list str)
  : list str :=
  List.filter (fun l => negb (validators_url l)) links.

(** The [href] values of the anchor elements of a document, in its order. *)
Definition anchor_hrefs (soup : list tag) : list str :=
  omap (fun t => if str_eqb (tag_name t) (cp "a")
                 then attr_get (attrs t) (cp "href") else None) soup.

(** The test of [parse_html] on one [href]. *)
Definition is_pdf_href (href : str) : bool :=
  endswith (lower (unquote href)) (cp ".pdf").

(** The next character, if any, is not one the item accepts. *)
Definition stops (it : item) (s : str) : Prop :=
  match s with [] => True | c :: _ => accepts it c = false end.

(** A header with both parameters, the extended one first: a prefix without
    the letter [f], a character set without spaces and apostrophes, and the
    two values. *)
Definition two_parameters (pre charset v w : str) : str :=
  pre ++ cp "filename*=" ++ charset ++ cp "''" ++ v
  ++ cp "; " ++ cp "filename=" ++ [ch_quote] ++ w ++ [ch_quote].

(** ** Inputs of the examples *)

(** The headers of the specification's example: both parameters at once. *)
Definition both_parameters : str :=
  two_parameters (cp "attachment; ") (cp "UTF-8") (cp "relatorio.pdf") (cp "other.pdf").

(** The document of the specification's example: two anchors. *)
Definition example_soup : list tag :=
  [ Tag (cp "a") [(cp "href", cp "/docs/Report%2C1.pdf")];
    Tag (cp "a") [(cp "href", cp "/img.png")] ].

(** A PDF served without a filename in its headers. *)
Definition pdf_response : response :=
  Response 200 [(cp "Content-Type", cp "application/pdf")]
    [cp "%PDF-1.7"; []; cp "%%EOF"] None.

(** A page served as HTML under a name that ends in [.pdf]. *)
Definition html_response : response :=
  Response 200 [(cp "Content-Type", cp "text/html; charset=utf-8")]
    [cp "<html></html>"] None.

(** A page served as HTML with the status 404. *)
Definition not_found_response : response :=
  Response 404 [(cp "Content-Type", cp "text/html")] [cp "Not Found"] None.

(** A response with status 304 that carries a PDF content type. *)
Definition not_modified_response : response :=
  Response 304 [(cp "Content-Type", cp "application/pdf")] [] None.

(** A file system in which the file of the download is already there. *)
Definition fs_with_file : gmap str node :=
  <[cp "PDFs/a.pdf" := File (cp "%PDF-1.4 old")]> (<[cp "PDFs" := Dir]> ∅).

(** ** The model at work *)

Example sanitize_report :
  sanitize (cp "My Report (Final).PDF") = cp "my_report_final.pdf".
Proof. vm_compute. reflexivity. Qed.

Example splitext_examples :
  splitext (cp "archive.tar.GZ") = (cp "archive.tar", cp ".GZ")
  /\ splitext (cp ".pdf") = (cp ".pdf", [])
  /\ splitext (cp "a.b/c") = (cp "a.b/c", []).
Proof. vm_compute. repeat split; reflexivity. Qed.

Example search_examples :
  search extended_re (cp "attachment; FILENAME* = utf-8''a%20b.pdf; x=1")
  = Some (cp "a%20b.pdf")
  /\ search simple_re (cp "attachment; filename = other.pdf ; x")
     = Some (cp "other.pdf ")
  /\ search simple_re (cp "inline") = None.
Proof. vm_compute. repeat split; reflexivity. Qed.

Example unquote_examples :
  unquote (cp "/docs/Report%2C1.pdf") = cp "/docs/Report,1.pdf"
  /\ unquote (cp "a%E2%82%ACb%E2%82%2e%zz") = [97; 8364; 98; 65533; 46; 37; 122; 122].
Proof. vm_compute. repeat split; reflexivity. Qed.

Example urlparse_path_example :
  urlparse_path (fun _ => true) (cp "https://example.com/files/guide;x/y;z?q#f")
  = Some (cp "/files/guide;x/y").
Proof. vm_compute. reflexivity. Qed.

(** A run of the whole program, twice.  The page holds the two anchors of
    [example_soup]; the network serves the page and, under any other URL, a
    PDF of three chunks.  The first run saves the page and one file; the
    second run finds both and saves nothing. *)
Definition example_get (n : nat) (stream : bool) (url : str) : exn + response :=
  if str_eqb url (cp "https://mydentitycolor.com/sds/")
  then inr (Response 200 [(cp "Content-Type", cp "text/html")] [cp "<html>"] None)
  else inr pdf_response.

Definition example_run (w : world) : world :=
  (main example_get (fun _ => true) (fun _ => false) (fun _ => example_soup) w).1.

Example pipeline_twice :
  let w1 := example_run (World ∅ [] []) in
  let w2 := example_run w1 in
  fs w1 !! cp "mydentitycolor.html" = Some (File (cp "<html>"))
  /\ fs w1 !! cp "PDFs" = Some Dir
  /\ fs w1 !! cp "PDFs/report_2c1.pdf" = Some (File (cp "%PDF-1.7%%EOF"))
  /\ console w1 = [msg_downloaded (cp "report_2c1.pdf")]
  /\ requests w1 = [cp "https://mydentitycolor.com/sds/";
                    cp "https://mydentitycolor.com/docs/Report%2C1.pdf"]
  /\ fs w2 = fs w1
  /\ console w2 = console w1 ++ [msg_exists (cp "report_2c1.pdf")].
Proof. vm_compute. repeat split; reflexivity. Qed.

(** * Lemmas *)

(** ** Strings: basic facts *)

Lemma str_eqb_eq s t : str_eqb s t = true <-> s = t.
Proof.
  revert t. induction s as [|a s IH]; intros [|b t]; simpl; try (split; congruence).
  rewrite andb_true_iff, N.eqb_eq, IH. split; [intros [-> ->]|intros [= -> ->]]; auto.
Qed.

Lemma str_eqb_refl s : str_eqb s s = true.
Proof. by apply str_eqb_eq. Qed.

Lemma startswith_prefix s p : startswith s p = true <-> exists t, s = p ++ t.
Proof.
  revert s. induction p as [|b p IH]; intros s; simpl.
  - split; eauto.
  - destruct s as [|a s].
    + split; [congruence|intros [t [=]]].
    + rewrite andb_true_iff, N.eqb_eq, IH. split.
      * intros [-> [t ->]]. eauto.
      * intros [t [= -> ->]]. eauto.
Qed.

Lemma str_in_infix p s : str_in p s = true <-> exists a b, s = a ++ p ++ b.
Proof.
  induction s as [|c s IH]; simpl.
  - rewrite orb_false_r, startswith_prefix. split.
    + intros [t Ht]. exists [], t. done.
    + intros (a & b & H). symmetry in H.
      apply app_eq_nil in H as [-> H]. apply app_eq_nil in H as [-> ->].
      exists []. done.
  - rewrite orb_true_iff, startswith_prefix, IH. split.
    + intros [[t Ht]|(a & b & ->)].
      * exists [], t. done.
      * exists (c :: a), b. done.
    + intros ([|x a] & b & H); simpl in H.
      * left. eauto.
      * injection H as -> ->. right. eauto.
Qed.

Lemma endswith_suffix s p : endswith s p = true <-> exists t, s = t ++ p.
Proof.
  unfold endswith. rewrite andb_true_iff, Nat.leb_le, str_eqb_eq. split.
  - intros [Hl H]. exists (take (length s - length p) s).
    rewrite <- H at 2. by rewrite take_drop.
  - intros [t ->]. rewrite length_app. split; [lia|].
    replace (length t + length p - length p)%nat with (length t) by lia.
    by rewrite drop_app_length.
Qed.

Lemma rfind_absent c s : c ∉ s -> rfind c s = (-1)%Z.
Proof.
  induction s as [|a s IH]; simpl; [done|]. intros H.
  apply not_elem_of_cons in H as [Hne H]. rewrite (IH H). simpl.
  destruct (N.eqb_spec a c); congruence.
Qed.

Lemma rfind_lower_bound c s : (-1 <= rfind c s)%Z.
Proof.
  induction s as [|a s IH]; simpl; [lia|].
  destruct (Z.leb_spec 0 (rfind c s)); [lia|]. destruct (a =? c); lia.
Qed.

Lemma rfind_last c s t : c ∉ t -> rfind c (s ++ c :: t) = Z.of_nat (length s).
Proof.
  intros Ht. induction s as [|a s IH]; simpl.
  - rewrite (rfind_absent _ _ Ht). simpl. by rewrite N.eqb_refl.
  - rewrite IH. destruct (Z.leb_spec 0 (Z.of_nat (length s))); lia.
Qed.

(** Either the character is absent, or the string splits at its last
    occurrence. *)
Lemma rfind_cases c s :
  ((c ∉ s) /\ rfind c s = (-1)%Z)
  \/ exists s1 s2, s = s1 ++ c :: s2 /\ (c ∉ s2) /\ rfind c s = Z.of_nat (length s1).
Proof.
  induction s as [|a s IH].
  - left. split; [apply not_elem_of_nil|done].
  - destruct IH as [[Hn Hr]|(s1 & s2 & -> & Hn & Hr)].
    + destruct (N.eqb_spec a c) as [->|Hne].
      * right. exists [], s. split; [done|]. split; [done|].
        simpl. rewrite Hr. simpl. by rewrite N.eqb_refl.
      * left. split; [by apply not_elem_of_cons|].
        simpl. rewrite Hr. simpl. destruct (N.eqb_spec a c); congruence.
    + right. exists (a :: s1), s2. split; [done|]. split; [done|].
      simpl. rewrite Hr.
      destruct (Z.leb_spec 0 (Z.of_nat (length s1))); simpl length; lia.
Qed.

Lemma upto_app_length s t : upto (Z.of_nat (length s)) (s ++ t) = s.
Proof. unfold upto. rewrite Nat2Z.id. by rewrite take_app_length. Qed.

Lemma from_app_length s t : from (Z.of_nat (length s)) (s ++ t) = t.
Proof. unfold from. rewrite Nat2Z.id. by rewrite drop_app_length. Qed.

Lemma rfind_present c s : c ∈ s -> (0 <= rfind c s)%Z.
Proof.
  intros H. destruct (rfind_cases c s) as [[Hn _]|(s1 & s2 & _ & _ & ->)]; [done|lia].
Qed.

Lemma rfind_app_ge c s t : c ∈ t -> (Z.of_nat (length s) <= rfind c (s ++ t))%Z.
Proof.
  intros H. induction s as [|a s IH]; simpl.
  - by apply rfind_present.
  - destruct (Z.leb_spec 0 (rfind c (s ++ t))); lia.
Qed.

(** ** [splitext]: the shape of its result *)

Lemma has_non_dot_head a l : a <> ch_dot -> has_non_dot (a :: l) = true.
Proof. intros H. simpl. destruct (N.eqb_spec a ch_dot); [done|reflexivity]. Qed.

(** Either there is no extension, or the name splits at its last dot into a
    name and an extension that holds no further dot and no slash. *)
Lemma splitext_cases p :
  splitext p = (p, [])
  \/ exists n e, p = n ++ ch_dot :: e /\ (ch_dot ∉ e) /\ (ch_slash ∉ e)
                 /\ splitext p = (n, ch_dot :: e).
Proof.
  unfold splitext.
  destruct (rfind_cases ch_dot p) as [[Hn ->]|(n & e & -> & Hn & ->)].
  - left. pose proof (rfind_lower_bound ch_slash p).
    destruct (Z.ltb_spec (rfind ch_slash p) (-1)); [lia|done].
  - destruct (Z.ltb_spec (rfind ch_slash (n ++ ch_dot :: e)) (Z.of_nat (length n)))
      as [Hlt|Hge]; [|by left].
    destruct (has_non_dot _); [|by left].
    right. exists n, e. rewrite upto_app_length, from_app_length.
    repeat split; try done.
    intros Hin.
    assert (ch_slash ∈ ch_dot :: e) as Hin' by (by apply elem_of_cons; right).
    pose proof (rfind_app_ge ch_slash n (ch_dot :: e) Hin'). lia.
Qed.

Lemma splitext_no_dot p : ch_dot ∉ p -> splitext p = (p, []).
Proof.
  intros H. unfold splitext. rewrite (rfind_absent _ _ H).
  pose proof (rfind_lower_bound ch_slash p).
  destruct (Z.ltb_spec (rfind ch_slash p) (-1)); [lia|done].
Qed.

Lemma splitext_leading_dot e :
  ch_dot ∉ e -> ch_slash ∉ e -> splitext (ch_dot :: e) = (ch_dot :: e, []).
Proof.
  intros Hd Hs. unfold splitext.
  pose proof (rfind_last ch_dot [] e Hd) as Hr. simpl app in Hr. rewrite Hr.
  rewrite (rfind_absent ch_slash (ch_dot :: e)).
  2:{ apply not_elem_of_cons. split; [done|done]. }
  reflexivity.
Qed.

Lemma splitext_clean a n e :
  a <> ch_dot -> ch_slash ∉ (a :: n) -> ch_slash ∉ e -> ch_dot ∉ e ->
  splitext ((a :: n) ++ ch_dot :: e) = (a :: n, ch_dot :: e).
Proof.
  intros Ha Hsn Hse Hde. unfold splitext.
  rewrite (rfind_last ch_dot (a :: n) e Hde).
  rewrite (rfind_absent ch_slash).
  2:{ intros Hin. apply elem_of_app in Hin as [Hin|Hin]; [done|].
      apply elem_of_cons in Hin as [Hin|Hin]; [done|done]. }
  rewrite upto_app_length, from_app_length.
  change (from (-1 + 1) (a :: n)) with (a :: n).
  rewrite (has_non_dot_head _ _ Ha).
  destruct (Z.ltb_spec (-1) (Z.of_nat (length (a :: n)))); [done|lia].
Qed.

(** ** [lower] *)

Ltac char_case :=
  match goal with
  | |- context [N.leb ?a ?b] => destruct (N.leb_spec a b)
  | |- context [N.eqb ?a ?b] => destruct (N.eqb_spec a b)
  | |- context [N.ltb ?a ?b] => destruct (N.ltb_spec a b)
  | H : context [N.leb ?a ?b] |- _ => destruct (N.leb_spec a b)
  | H : context [N.eqb ?a ?b] |- _ => destruct (N.eqb_spec a b)
  | H : context [N.ltb ?a ?b] |- _ => destruct (N.ltb_spec a b)
  end.

(** Case analysis on every comparison of characters, dropping the cases the
    bounds at hand exclude. *)
Ltac char_cases := repeat (char_case; simpl in *; try (exfalso; lia)).

Lemma lower_app s t : lower (s ++ t) = lower s ++ lower t.
Proof. unfold lower. apply flat_map_app. Qed.

Lemma lower_cons c s : lower (c :: s) = lower_char c ++ lower s.
Proof. reflexivity. Qed.

(** No character below [A] is the lower case of another one. *)
Lemma lower_char_small d c : d < 65 -> d ∈ lower_char c -> c = d.
Proof.
  intros Hd. unfold lower_char, in_range. char_cases;
    rewrite ?elem_of_cons, ?elem_of_nil; intros ?; intuition lia.
Qed.

Lemma lower_small_absent d s : d < 65 -> d ∉ s -> d ∉ lower s.
Proof.
  intros Hd. induction s as [|c s IH]; [done|].
  intros Hn. apply not_elem_of_cons in Hn as [Hne Hn].
  rewrite lower_cons. intros Hin. apply elem_of_app in Hin as [Hin|Hin].
  - apply lower_char_small in Hin; [congruence|done].
  - by apply IH.
Qed.

Lemma lower_char_dot : lower_char ch_dot = [ch_dot].
Proof. reflexivity. Qed.

Lemma lower_char_idem c : lower (lower_char c) = lower_char c.
Proof.
  unfold lower_char at 2. unfold in_range.
  char_cases; unfold lower, lower_char, in_range; simpl; char_cases; reflexivity.
Qed.

Lemma lower_idem s : lower (lower s) = lower s.
Proof.
  induction s as [|c s IH]; [done|].
  rewrite lower_cons, lower_app, lower_char_idem, IH. done.
Qed.

Lemma lower_char_stem c : is_stem_char c = true -> lower_char c = [c].
Proof.
  unfold is_stem_char, is_lower_alnum, lower_char, in_range, ch_underscore.
  char_cases; intros; try reflexivity; try discriminate; lia.
Qed.

Lemma lower_stem s : Forall (fun c => is_stem_char c = true) s -> lower s = s.
Proof.
  induction 1 as [|c s Hc _ IH]; [done|].
  rewrite lower_cons, (lower_char_stem _ Hc), IH. done.
Qed.

Lemma lower_nil_inv s : lower s = [] -> s = [].
Proof.
  destruct s as [|c s]; [done|]. rewrite lower_cons.
  unfold lower_char. repeat case_match; discriminate.
Qed.

(** ** The three steps of [sanitize_stem] *)

Lemma replace_non_alnum_stem s : stem_chars (replace_non_alnum s).
Proof.
  unfold replace_non_alnum. apply Forall_forall. intros c Hc.
  apply list_elem_of_In, in_map_iff in Hc as (x & <- & _).
  unfold is_stem_char. destruct (is_lower_alnum x) eqn:E; [by rewrite E|done].
Qed.

Lemma replace_non_alnum_fixed s : stem_chars s -> replace_non_alnum s = s.
Proof.
  induction 1 as [|c s Hc _ IH]; [done|]. simpl. fold (replace_non_alnum s).
  rewrite IH. unfold is_stem_char in Hc.
  destruct (is_lower_alnum c); [done|]. simpl in Hc.
  apply N.eqb_eq in Hc. by rewrite Hc.
Qed.

Lemma collapse_cons_cons a b s :
  collapse_underscores (a :: b :: s)
  = if (a =? ch_underscore) && (b =? ch_underscore)
    then collapse_underscores (b :: s)
    else a :: collapse_underscores (b :: s).
Proof. reflexivity. Qed.

Lemma collapse_Forall (P : N -> Prop) s :
  Forall P s -> Forall P (collapse_underscores s).
Proof.
  induction s as [|a s IH]; [done|]. intros H.
  apply Forall_cons in H as [Ha Hs]. specialize (IH Hs).
  destruct s as [|b s]; [by apply Forall_cons|].
  rewrite collapse_cons_cons. destruct (_ && _); [done|by apply Forall_cons].
Qed.

Lemma collapse_head s : head (collapse_underscores s) = head s.
Proof.
  induction s as [|a s IH]; [done|].
  destruct s as [|b s]; [done|]. rewrite collapse_cons_cons.
  destruct (_ && _) eqn:E; [|done].
  rewrite IH. simpl. apply andb_true_iff in E as [Ea Eb].
  apply N.eqb_eq in Ea, Eb. congruence.
Qed.

Lemma str_in_double_cons a s :
  str_in double_underscore (a :: s)
  = (a =? ch_underscore)
    && match head s with Some b => b =? ch_underscore | None => false end
    || str_in double_underscore s.
Proof.
  simpl. destruct s as [|b s]; simpl; [done|]. by rewrite andb_true_r.
Qed.

Lemma collapse_no_double s :
  str_in double_underscore (collapse_underscores s) = false.
Proof.
  induction s as [|a s IH]; [done|].
  destruct s as [|b s]; [simpl; by rewrite andb_false_r|].
  rewrite collapse_cons_cons. destruct (_ && _) eqn:E; [done|].
  rewrite str_in_double_cons, IH, collapse_head. simpl.
  by rewrite E.
Qed.

Lemma collapse_fixed s :
  str_in double_underscore s = false -> collapse_underscores s = s.
Proof.
  induction s as [|a s IH]; [done|].
  rewrite str_in_double_cons. intros H.
  apply orb_false_iff in H as [H1 H2]. specialize (IH H2).
  destruct s as [|b s]; [done|]. rewrite collapse_cons_cons, IH.
  simpl in H1. by rewrite H1.
Qed.

(** Only a string of underscores collapses to a string of underscores. *)
Lemma collapse_all_underscore s :
  Forall (fun c => c = ch_underscore) (collapse_underscores s)
  -> Forall (fun c => c = ch_underscore) s.
Proof.
  induction s as [|a s IH]; [done|].
  destruct s as [|b s]; [done|]. rewrite collapse_cons_cons.
  destruct (_ && _) eqn:E.
  - intros H. apply andb_true_iff in E as [Ea _]. apply N.eqb_eq in Ea.
    apply Forall_cons. split; [done|by apply IH].
  - intros H. apply Forall_cons in H as [Ha H]. apply Forall_cons. split; [done|by apply IH].
Qed.

(** ** [strip] *)

Lemma lstrip_spec c s :
  exists n, s = replicate n c ++ lstrip c s /\ head (lstrip c s) <> Some c.
Proof.
  induction s as [|a s (n & IH1 & IH2)]; [exists 0%nat; done|]. simpl.
  destruct (N.eqb_spec a c) as [->|Hne].
  - exists (S n). split; [simpl; congruence|done].
  - exists 0%nat. split; [done|]. simpl. congruence.
Qed.

Lemma rstrip_spec c s :
  exists n, s = rstrip c s ++ replicate n c /\ last (rstrip c s) <> Some c.
Proof.
  unfold rstrip. destruct (lstrip_spec c (reverse s)) as (n & H1 & H2).
  exists n. split.
  - rewrite <- (reverse_involutive s), H1 at 1.
    by rewrite reverse_app, reverse_replicate.
  - by rewrite last_reverse.
Qed.

Lemma strip_spec c s :
  exists n m, s = replicate n c ++ strip c s ++ replicate m c
              /\ head (strip c s) <> Some c /\ last (strip c s) <> Some c.
Proof.
  unfold strip. destruct (lstrip_spec c s) as (n & H1 & H2).
  destruct (rstrip_spec c (lstrip c s)) as (m & H3 & H4).
  exists n, m. split; [by rewrite <- H3|]. split; [|done].
  rewrite H3 in H2. destruct (rstrip c (lstrip c s)); [done|]. done.
Qed.

Lemma lstrip_fixed c s : head s <> Some c -> lstrip c s = s.
Proof.
  destruct s as [|a s]; [done|]. simpl. intros H.
  destruct (N.eqb_spec a c); congruence.
Qed.

Lemma strip_fixed c s : head s <> Some c -> last s <> Some c -> strip c s = s.
Proof.
  intros Hh Hl. unfold strip, rstrip. rewrite (lstrip_fixed _ _ Hh).
  rewrite lstrip_fixed; [apply reverse_involutive|by rewrite head_reverse].
Qed.

Lemma strip_nil_all c s : strip c s = [] -> Forall (fun a => a = c) s.
Proof.
  intros H. destruct (strip_spec c s) as (n & m & Hs & _). rewrite H in Hs.
  rewrite Hs. apply Forall_app. split; by apply Forall_replicate.
Qed.

Lemma lstrip_all c s : Forall (fun a => a = c) s -> lstrip c s = [].
Proof.
  induction 1 as [|a s -> _ IH]; [done|]. simpl. by rewrite N.eqb_refl.
Qed.

Lemma strip_all c s : Forall (fun a => a = c) s -> strip c s = [].
Proof. intros H. unfold strip. by rewrite (lstrip_all _ _ H). Qed.

(** ** [sanitize_stem] and [sanitize] *)

Lemma str_in_app_false p a s b :
  str_in p (a ++ s ++ b) = false -> str_in p s = false.
Proof.
  intros H. destruct (str_in p s) eqn:E; [|done].
  apply str_in_infix in E as (x & y & ->).
  assert (str_in p (a ++ (x ++ p ++ y) ++ b) = true) as H'; [|congruence].
  apply str_in_infix. exists (a ++ x), (y ++ b). by rewrite <- !app_assoc.
Qed.

Lemma sanitize_stem_shape n :
  stem_chars (sanitize_stem n)
  /\ str_in double_underscore (sanitize_stem n) = false
  /\ head (sanitize_stem n) <> Some ch_underscore
  /\ last (sanitize_stem n) <> Some ch_underscore.
Proof.
  unfold sanitize_stem.
  set (c := collapse_underscores (replace_non_alnum (lower n))).
  destruct (strip_spec ch_underscore c) as (i & j & Hc & Hh & Hl).
  assert (stem_chars c) as Hs
    by apply collapse_Forall, replace_non_alnum_stem.
  assert (str_in double_underscore c = false) as Hd by apply collapse_no_double.
  rewrite Hc in Hs, Hd. split; [|split; [|done]].
  - apply Forall_app in Hs as [_ Hs]. by apply Forall_app in Hs as [Hs _].
  - by apply str_in_app_false in Hd.
Qed.

Lemma sanitize_stem_fixed s :
  stem_chars s -> str_in double_underscore s = false ->
  head s <> Some ch_underscore -> last s <> Some ch_underscore ->
  sanitize_stem s = s.
Proof.
  intros Hs Hd Hh Hl. unfold sanitize_stem.
  rewrite (lower_stem _ Hs), (replace_non_alnum_fixed _ Hs), (collapse_fixed _ Hd).
  by apply strip_fixed.
Qed.

Lemma alnum_not_underscore c : is_lower_alnum c = true -> c <> ch_underscore.
Proof.
  unfold is_lower_alnum, in_range, ch_underscore. char_cases; intros; try discriminate; lia.
Qed.

Lemma sanitize_stem_nil n : sanitize_stem n = [] <-> keeps_alnum n = false.
Proof.
  unfold sanitize_stem, keeps_alnum. split.
  - intros H. apply strip_nil_all, collapse_all_underscore in H.
    destruct (existsb _ _) eqn:E; [|done].
    apply existsb_exists in E as (c & Hin & Hc).
    rewrite Forall_forall in H. specialize (H c).
    pose proof (alnum_not_underscore _ Hc) as Hne. destruct Hne. apply H.
    apply list_elem_of_In. unfold replace_non_alnum. apply in_map_iff.
    exists c. by rewrite Hc.
  - intros H. apply strip_all, collapse_Forall.
    unfold replace_non_alnum. apply Forall_forall. intros c Hc.
    apply list_elem_of_In, in_map_iff in Hc as (x & <- & Hx).
    destruct (is_lower_alnum x) eqn:E; [|done].
    assert (existsb is_lower_alnum (lower n) = true); [|congruence].
    apply existsb_exists. eauto.
Qed.

Lemma stem_chars_absent d s : is_stem_char d = false -> stem_chars s -> d ∉ s.
Proof.
  intros Hd Hs Hin. rewrite Forall_forall in Hs. specialize (Hs _ Hin). congruence.
Qed.

Lemma stem_of_no_dot s : ch_dot ∉ s -> stem_of s = s.
Proof. intros H. unfold stem_of. by rewrite (rfind_absent _ _ H). Qed.

Lemma stem_of_last_dot s e : ch_dot ∉ e -> stem_of (s ++ ch_dot :: e) = s.
Proof.
  intros H. unfold stem_of. rewrite (rfind_last _ _ _ H).
  destruct (Z.ltb_spec (Z.of_nat (length s)) 0); [lia|apply upto_app_length].
Qed.

(** The stem of the sanitized name is the sanitized name part. *)
Lemma stem_of_sanitize f : stem_of (sanitize f) = sanitize_stem (splitext f).1.
Proof.
  unfold sanitize.
  destruct (sanitize_stem_shape (splitext f).1) as (Hs & _).
  destruct (splitext_cases f) as [E|(n & e & _ & Hd & _ & E)];
    rewrite E in *; simpl in *.
  - rewrite app_nil_r. apply stem_of_no_dot. by apply stem_chars_absent.
  - apply stem_of_last_dot. by apply lower_small_absent.
Qed.

Lemma sanitize_eq f :
  sanitize f = sanitize_stem (splitext f).1 ++ lower (splitext f).2.
Proof. unfold sanitize. by destruct (splitext f). Qed.

(** The shape of every sanitized name. *)
Lemma sanitize_shape f :
  let r := sanitize f in
  r = stem_of r ++ lower (splitext f).2
  /\ stem_chars (stem_of r)
  /\ str_in double_underscore (stem_of r) = false
  /\ head (stem_of r) <> Some ch_underscore
  /\ last (stem_of r) <> Some ch_underscore
  /\ (r <> [] <-> (splitext f).2 <> [] \/ keeps_alnum (splitext f).1 = true).
Proof.
  intros r. subst r. rewrite stem_of_sanitize.
  destruct (sanitize_stem_shape (splitext f).1) as (H1 & H2 & H3 & H4).
  split; [apply sanitize_eq|]. do 4 (split; [done|]).
  rewrite sanitize_eq. split.
  - intros Hne. destruct ((splitext f).2) as [|c e] eqn:E; [|by left].
    right. rewrite app_nil_r in Hne.
    destruct (keeps_alnum _) eqn:K; [done|]. by apply sanitize_stem_nil in K.
  - intros [He|Hk] Hnil; apply app_eq_nil in Hnil as [Hn1 Hn2].
    + by apply lower_nil_inv in Hn2.
    + apply sanitize_stem_nil in Hn1. congruence.
Qed.

(** A name that ends in [.pdf] never sanitizes to the empty name. *)
Lemma sanitize_pdf_nonempty t : sanitize (t ++ cp ".pdf") <> [].
Proof.
  apply (sanitize_shape (t ++ cp ".pdf")).
  destruct (splitext_cases (t ++ cp ".pdf")) as [->|(n & e & _ & _ & _ & ->)];
    simpl; [right|by left].
  unfold keeps_alnum. rewrite lower_app. apply existsb_exists.
  exists 112. split; [|done]. apply in_or_app. right. vm_compute. tauto.
Qed.

Lemma fallback_filename_pdf nv url f :
  fallback_filename nv url = inr f -> exists t, f = t ++ cp ".pdf".
Proof.
  unfold fallback_filename. destruct (urlparse_path nv url) as [path|]; [|done].
  destruct (endswith (basename path) (cp ".pdf")) eqn:E; simpl; intros [= <-].
  - by apply endswith_suffix in E.
  - eauto.
Qed.

Lemma stem_chars_head_not d s : is_stem_char d = false -> stem_chars s -> head s <> Some d.
Proof.
  intros Hd Hs Hh. destruct s as [|a s]; [done|]. injection Hh as ->.
  apply Forall_cons in Hs as [Ha _]. congruence.
Qed.

(** Sanitizing a sanitized name: nothing changes when its stem is not empty
    or it has no extension; a name reduced to its extension loses the dot. *)
Lemma sanitize_twice f :
  let s := sanitize_stem (splitext f).1 in
  let e := lower (splitext f).2 in
  sanitize (sanitize f)
  = if bool_decide (s = []) then sanitize_stem e else s ++ e.
Proof.
  intros s e. subst s e. rewrite (sanitize_eq f).
  destruct (sanitize_stem_shape (splitext f).1) as (Hs & Hd & Hh & Hl).
  set (s := sanitize_stem (splitext f).1) in *.
  assert (ch_dot ∉ s) as Hdot by (by apply stem_chars_absent).
  assert (ch_slash ∉ s) as Hslash by (by apply stem_chars_absent).
  destruct (splitext_cases f) as [E|(n & x & _ & Hxd & Hxs & E)];
    rewrite E; simpl snd.
  - simpl lower. rewrite app_nil_r.
    rewrite sanitize_eq, (splitext_no_dot _ Hdot). simpl.
    rewrite app_nil_r, (sanitize_stem_fixed s Hs Hd Hh Hl).
    case_bool_decide as Hn; [by rewrite Hn|done].
  - rewrite lower_cons, lower_char_dot. simpl app.
    assert (ch_dot ∉ lower x) as Hxd' by (by apply lower_small_absent).
    assert (ch_slash ∉ lower x) as Hxs' by (by apply lower_small_absent).
    case_bool_decide as Hn.
    + rewrite Hn. simpl app.
      rewrite sanitize_eq, (splitext_leading_dot _ Hxd' Hxs'). simpl.
      by rewrite app_nil_r.
    + destruct s as [|a s'] eqn:Es; [done|].
      assert (a <> ch_dot) as Ha.
      { intros ->. apply Hdot. by apply elem_of_cons; left. }
      rewrite sanitize_eq, (splitext_clean a s' (lower x) Ha Hslash Hxs' Hxd').
      simpl fst. simpl snd.
      rewrite (sanitize_stem_fixed (a :: s') Hs Hd Hh Hl).
      rewrite lower_cons, lower_char_dot, lower_idem. done.
Qed.

(** ** Matching, one item at a time *)

Lemma many_all it k acc a b r :
  Forall (fun c => accepts it c = true) a -> stops it b -> k b = Some r ->
  many it k acc (a ++ b) = Some (keep it (acc ++ a) r).
Proof.
  intros Ha Hb Hk. revert acc. induction Ha as [|c a Hc _ IH]; intros acc; simpl.
  - rewrite app_nil_r. destruct b as [|c b]; simpl; [by rewrite Hk|].
    simpl in Hb. by rewrite Hb, Hk.
  - rewrite Hc, (IH (acc ++ [c])), <- app_assoc. done.
Qed.

Lemma match_one it p c s r :
  rep it = One -> accepts it c = true -> match_here p s = Some r ->
  match_here (it :: p) (c :: s) = Some (keep it [c] r).
Proof. intros Hr Ha Hk. simpl. by rewrite Hr, Ha, Hk. Qed.

Lemma match_opt it p c s r :
  rep it = Opt -> accepts it c = true -> match_here p s = Some r ->
  match_here (it :: p) (c :: s) = Some (keep it [c] r).
Proof. intros Hr Ha Hk. simpl. by rewrite Hr, Ha, Hk. Qed.

Lemma match_star it p a b r :
  rep it = Star -> Forall (fun c => accepts it c = true) a -> stops it b ->
  match_here p b = Some r ->
  match_here (it :: p) (a ++ b) = Some (keep it a r).
Proof.
  intros Hr Ha Hb Hk. simpl. rewrite Hr.
  by rewrite (many_all it (match_here p) [] a b r Ha Hb Hk).
Qed.

Lemma match_plus it p c a b r :
  rep it = Plus -> Forall (fun c => accepts it c = true) (c :: a) -> stops it b ->
  match_here p b = Some r ->
  match_here (it :: p) ((c :: a) ++ b) = Some (keep it (c :: a) r).
Proof.
  intros Hr Ha Hb Hk. apply Forall_cons in Ha as [Hc Ha]. simpl. rewrite Hr, Hc.
  by rewrite (many_all it (match_here p) [c] a b r Ha Hb Hk).
Qed.

Lemma match_reject it p c s :
  rep it = One -> accepts it c = false -> match_here (it :: p) (c :: s) = None.
Proof. intros Hr Ha. simpl. by rewrite Hr, Ha. Qed.

(** [search] passes a prefix on which no match can start. *)
Lemma search_skip it p pre s :
  rep it = One -> Forall (fun c => accepts it c = false) pre ->
  search (it :: p) (pre ++ s) = search (it :: p) s.
Proof.
  intros Hr. induction 1 as [|c pre Hc _ IH]; [done|].
  change ((c :: pre) ++ s) with (c :: (pre ++ s)).
  cbn [search]. by rewrite (match_reject it p c (pre ++ s) Hr Hc).
Qed.

Lemma search_here p s g : match_here p s = Some g -> search p s = Some g.
Proof. intros H. destruct s; simpl; by rewrite H. Qed.

(** A match that starts somewhere in the text is found, or an earlier one. *)
Lemma search_later p pre s g :
  match_here p s = Some g -> is_Some (search p (pre ++ s)).
Proof.
  intros H. induction pre as [|c pre IH]; simpl.
  - rewrite (search_here _ _ _ H). eauto.
  - destruct (match_here p (c :: pre ++ s)); eauto.
Qed.

Lemma keep_plain it a r : grouped it = false -> keep it a r = r.
Proof. unfold keep. by intros ->. Qed.

Lemma keep_group it a r : grouped it = true -> keep it a r = a.
Proof. unfold keep. by intros ->. Qed.

Lemma one_plain it p c s r :
  rep it = One -> grouped it = false -> accepts it c = true ->
  match_here p s = Some r -> match_here (it :: p) (c :: s) = Some r.
Proof. intros Hr Hg Ha Hk. by rewrite (match_one it p c s r Hr Ha Hk), keep_plain. Qed.

Lemma opt_plain it p c s r :
  rep it = Opt -> grouped it = false -> accepts it c = true ->
  match_here p s = Some r -> match_here (it :: p) (c :: s) = Some r.
Proof. intros Hr Hg Ha Hk. by rewrite (match_opt it p c s r Hr Ha Hk), keep_plain. Qed.

Lemma star_plain it p a b r :
  rep it = Star -> grouped it = false ->
  Forall (fun c => accepts it c = true) a -> stops it b ->
  match_here p b = Some r -> match_here (it :: p) (a ++ b) = Some r.
Proof.
  intros Hr Hg Ha Hb Hk. by rewrite (match_star it p a b r Hr Ha Hb Hk), keep_plain.
Qed.

Lemma plus_group it p c a b r :
  rep it = Plus -> grouped it = true ->
  Forall (fun c => accepts it c = true) (c :: a) -> stops it b ->
  match_here p b = Some r -> match_here (it :: p) ((c :: a) ++ b) = Some (c :: a).
Proof.
  intros Hr Hg Ha Hb Hk. by rewrite (match_plus it p c a b r Hr Ha Hb Hk), keep_group.
Qed.

(** One literal character of the pattern against the same character of the
    text. *)
Ltac literal :=
  apply one_plain; [reflexivity | reflexivity | vm_compute; reflexivity | ].

Lemma match_extended charset v rest :
  Forall (fun c => not_apostrophe c = true /\ is_space c = false) charset ->
  v <> [] -> Forall (fun c => not_semi_crlf c = true) v ->
  match rest with [] => True | c :: _ => not_semi_crlf c = false end ->
  match_here extended_re (cp "filename*=" ++ charset ++ cp "''" ++ v ++ rest) = Some v.
Proof.
  intros Hcs Hv Hf Hrest. destruct v as [|c v]; [done|].
  unfold extended_re, word_ic.
  let x := eval vm_compute in (cp "filename") in change (cp "filename") with x.
  let x := eval vm_compute in (cp "filename*=") in change (cp "filename*=") with x.
  let x := eval vm_compute in (cp "''") in change (cp "''") with x.
  cbn [List.map app].
  do 9 literal.
  apply (star_plain _ _ [] (61 :: _)); [reflexivity|reflexivity|done|reflexivity|].
  literal.
  apply (star_plain _ _ [] (charset ++ _)); [reflexivity|reflexivity|done| |].
  { destruct Hcs as [|x cs [_ Hx] _]; [reflexivity|exact Hx]. }
  apply star_plain; [reflexivity|reflexivity| |reflexivity|].
  { eapply Forall_impl; [exact Hcs|]. by intros x [Hx _]. }
  do 2 literal.
  change (c :: v ++ rest) with ((c :: v) ++ rest).
  apply (plus_group _ [] c v rest []); [reflexivity|reflexivity|exact Hf| |reflexivity].
  destruct rest; [done|exact Hrest].
Qed.

Lemma match_simple_quoted w rest :
  w <> [] -> Forall (fun c => not_quote_semi_crlf c = true) w ->
  match_here simple_re (cp "filename=" ++ [ch_quote] ++ w ++ [ch_quote] ++ rest)
  = Some w.
Proof.
  intros Hw Hf. destruct w as [|c w]; [done|].
  unfold simple_re, word_ic.
  let x := eval vm_compute in (cp "filename") in change (cp "filename") with x.
  let x := eval vm_compute in (cp "filename=") in change (cp "filename=") with x.
  cbn [List.map app].
  do 8 literal.
  apply (star_plain _ _ [] (61 :: _)); [reflexivity|reflexivity|done|reflexivity|].
  literal.
  apply (star_plain _ _ [] (ch_quote :: _)); [reflexivity|reflexivity|done|reflexivity|].
  apply opt_plain; [reflexivity|reflexivity|reflexivity|].
  change (c :: w ++ ch_quote :: rest) with ((c :: w) ++ ch_quote :: rest).
  apply (plus_group _ _ c w (ch_quote :: rest) []);
    [reflexivity|reflexivity|exact Hf|reflexivity|].
  apply opt_plain; reflexivity.
Qed.

Lemma two_parameters_match pre charset v w :
  Forall (fun c => lit_ic 102 c = false) pre ->
  Forall (fun c => not_apostrophe c = true /\ is_space c = false) charset ->
  v <> [] -> Forall (fun c => not_semi_crlf c = true) v ->
  w <> [] -> Forall (fun c => not_quote_semi_crlf c = true) w ->
  search extended_re (two_parameters pre charset v w) = Some v
  /\ is_Some (search simple_re (two_parameters pre charset v w)).
Proof.
  intros Hpre Hcs Hv Hfv Hw Hfw. unfold two_parameters. split.
  - unfold extended_re at 1, word_ic.
    let x := eval vm_compute in (cp "filename") in change (cp "filename") with x.
    cbn [List.map app].
    rewrite search_skip; [|reflexivity|exact Hpre].
    apply search_here.
    apply (match_extended charset v (cp "; " ++ cp "filename=" ++ [ch_quote] ++ w ++ [ch_quote]));
      try done.
  - rewrite !(app_assoc _ _ (cp "filename=" ++ _)).
    pose proof (match_simple_quoted w [] Hw Hfw) as Hm.
    rewrite app_nil_r in Hm.
    eapply search_later. exact Hm.
Qed.

(** ** Link extraction *)

Lemma parse_html_loop_filter anchors acc :
  parse_html_loop anchors acc
  = acc ++ List.filter is_pdf_href
             (List.map (fun a => default [] (attr_get (attrs a) (cp "href"))) anchors).
Proof.
  revert acc. induction anchors as [|a rest IH]; intros acc; simpl.
  - by rewrite app_nil_r.
  - unfold is_pdf_href at 1.
    destruct (endswith _ _); rewrite IH; [by rewrite <- app_assoc|done].
Qed.

Lemma find_all_hrefs soup :
  List.map (fun a => default [] (attr_get (attrs a) (cp "href"))) (find_all_a_href soup)
  = anchor_hrefs soup.
Proof.
  unfold find_all_a_href, anchor_hrefs.
  induction soup as [|t soup IH]; [done|]. simpl.
  destruct (str_eqb (tag_name t) (cp "a")); simpl; [|done].
  destruct (attr_get (attrs t) (cp "href")) as [h|] eqn:E; simpl.
  - rewrite E. simpl. by rewrite IH.
  - done.
Qed.

(** ** Effects of the statements *)

Lemma set_fs_same w : set_fs (fs w) w = w.
Proof. by destruct w. Qed.

Lemma endswith_one_last c s : endswith s [c] = false -> last s <> Some c.
Proof.
  intros H Hl. apply last_Some in Hl as [t ->].
  assert (endswith (t ++ [c]) [c] = true); [|congruence].
  apply endswith_suffix. eauto.
Qed.

(** A path that does not end in a slash is its own key. *)
Lemma fs_key_fixed p : endswith p [ch_slash] = false -> fs_key p = p.
Proof.
  intros H. unfold fs_key, rstrip.
  rewrite lstrip_fixed; [apply reverse_involutive|].
  rewrite head_reverse. by apply endswith_one_last.
Qed.

Lemma stat_absent m p :
  str_eqb p [] = false -> endswith p [ch_slash] = false ->
  stat m p = None -> m !! p = None.
Proof.
  intros Hn He. unfold stat. rewrite Hn, (fs_key_fixed _ He), Hn, He.
  destruct (m !! p) as [[d|]|]; done.
Qed.

(** The loop of lines 133-135 appends the chunks to the open file. *)
Lemma write_chunks file chunks w d :
  fs w !! file = Some (File d) ->
  for_each chunks
    (fun chunk => match chunk with [] => ret tt | _ => file_write file chunk end) w
  = (set_fs (<[file := File (d ++ concat chunks)]> (fs w)) w, inr tt).
Proof.
  revert w d. induction chunks as [|chunk chunks IH]; intros w d Hf.
  - simpl. rewrite app_nil_r, (insert_id _ _ _ Hf), set_fs_same. done.
  - destruct chunk as [|c chunk].
    + simpl. unfold bind, ret. simpl. by apply IH.
    + simpl. unfold bind, file_write. rewrite Hf.
      rewrite (IH _ (d ++ c :: chunk)); [|simpl; apply lookup_insert_eq].
      simpl. unfold set_fs. simpl. rewrite insert_insert_eq.
      by rewrite <- app_assoc.
Qed.

Lemma os_makedirs_effects name w :
  fs w ⊆ fs (os_makedirs name w).1
  /\ console (os_makedirs name w).1 = console w
  /\ requests (os_makedirs name w).1 = requests w.
Proof.
  unfold os_makedirs. destruct (stat (fs w) name) as [[d|]|]; simpl; try done.
  destruct (str_eqb name []); simpl; [done|].
  destruct (fs w !! fs_key name) eqn:E; simpl; [done|].
  split; [by apply insert_subseteq|done].
Qed.

Section Effects.

Variable http_get : nat -> bool -> str -> exn + response.
Variable netloc_valid : str -> bool.
Variable validators_url : str -> bool.
Variable BeautifulSoup : str -> list tag.

(** What the [try] block of [download_pdf] does to the world: entries of the
    file system stay, the URL is requested once, and one status line is
    printed unless an exception leaves the block. *)
Lemma download_pdf_try_effects url download_dir w :
  let r := download_pdf_try http_get netloc_valid url download_dir w in
  fs w ⊆ fs r.1
  /\ requests r.1 = requests w ++ [url]
  /\ console r.1
     = console w ++ match r.2 with inr o => [report url o] | inl _ => [] end.
Proof.
  unfold download_pdf_try, bind, requests_get.
  destruct (http_get (length (requests w)) true url) as [e|resp]; simpl.
  { by rewrite app_nil_r. }
  unfold raise_for_status.
  destruct ((400 <=? status_code resp)%Z && (status_code resp <? 600)%Z); simpl.
  { by rewrite app_nil_r. }
  destruct (str_in _ _); simpl; [|done].
  destruct (resolve_filename _ _ _) as [e|filename]; simpl.
  { by rewrite app_nil_r. }
  set (w1 := World (fs w) (console w) (requests w ++ [url])).
  destruct (os_makedirs_effects download_dir w1) as (Hfs & Hc & Hr).
  destruct (os_makedirs download_dir w1) as [w2 [e|[]]]; simpl in *.
  { by rewrite Hc, app_nil_r. }
  set (file_path := path_join download_dir (sanitize filename)).
  unfold os_path_exists. simpl.
  case_bool_decide as Hex; simpl.
  { by rewrite Hc. }
  unfold open_wb.
  destruct (str_eqb file_path []) eqn:Hn; simpl.
  { by rewrite Hc, app_nil_r. }
  destruct (endswith file_path [ch_slash]) eqn:He; simpl.
  { by rewrite Hc, app_nil_r. }
  assert (fs w2 !! file_path = None) as Habs.
  { apply stat_absent; [done|done|].
    destruct (stat (fs w2) file_path) eqn:E; [|done]. destruct Hex. eauto. }
  rewrite Habs.
  set (w3 := set_fs (<[file_path:=File []]> (fs w2)) w2).
  rewrite (write_chunks file_path (body resp) w3 []); [|apply lookup_insert_eq].
  simpl. rewrite insert_insert_eq.
  assert (fs w ⊆ <[file_path:=File (concat (body resp))]> (fs w2)) as Hsub.
  { etrans; [exact Hfs|]. by apply insert_subseteq. }
  destruct (body_error resp) as [e|]; simpl.
  - by rewrite Hc, app_nil_r.
  - by rewrite Hc.
Qed.

(** Past the content-type gate, with a filename at hand, the directory
    [os.makedirs] has made is there when the [try] block ends. *)
Lemma download_pdf_try_after_makedirs url download_dir w r filename :
  http_get (length (requests w)) true url = inr r ->
  status_passes r = true ->
  is_pdf_response r = true ->
  resolve_filename netloc_valid
    (headers_get (headers r) (cp "Content-Disposition") []) url = inr filename ->
  fs (os_makedirs download_dir w).1
  ⊆ fs (download_pdf_try http_get netloc_valid url download_dir w).1.
Proof.
  intros Hget Hst Hct Hres.
  unfold download_pdf_try, bind, requests_get. rewrite Hget. simpl.
  unfold raise_for_status. unfold status_passes in Hst.
  apply negb_true_iff in Hst. rewrite Hst. simpl.
  unfold is_pdf_response in Hct. rewrite Hct. simpl. rewrite Hres. simpl.
  set (w1 := World (fs w) (console w) (requests w ++ [url])).
  assert (fs (os_makedirs download_dir w).1 = fs (os_makedirs download_dir w1).1) as ->.
  { unfold os_makedirs. subst w1. simpl.
    destruct (stat (fs w) download_dir) as [[d|]|]; try reflexivity.
    destruct (str_eqb download_dir []); [reflexivity|].
    destruct (fs w !! fs_key download_dir); reflexivity. }
  destruct (os_makedirs download_dir w1) as [w2 [e|[]]]; simpl; [done|].
  set (file_path := path_join download_dir (sanitize filename)).
  unfold os_path_exists. simpl.
  case_bool_decide as Hex; simpl; [done|].
  unfold open_wb.
  destruct (str_eqb file_path []) eqn:Hn; simpl; [done|].
  destruct (endswith file_path [ch_slash]) eqn:He; simpl; [done|].
  assert (fs w2 !! file_path = None) as Habs.
  { apply stat_absent; [done|done|].
    destruct (stat (fs w2) file_path) eqn:E; [|done]. destruct Hex. eauto. }
  rewrite Habs.
  set (w3 := set_fs (<[file_path:=File []]> (fs w2)) w2).
  rewrite (write_chunks file_path (body r) w3 []); [|apply lookup_insert_eq].
  simpl. rewrite insert_insert_eq.
  destruct (body_error r) as [e|]; simpl; by apply insert_subseteq.
Qed.

(** [download_pdf] returns an outcome for every exception of its [try]
    block. *)
Lemma download_pdf_catches url download_dir w :
  download_pdf http_get netloc_valid url download_dir w
  = match download_pdf_try http_get netloc_valid url download_dir w with
    | (w', inr o) => (w', inr o)
    | (w', inl e) =>
        (World (fs w') (console w' ++ [report url (outcome_of_exn e)]) (requests w'),
         inr (outcome_of_exn e))
    end.
Proof.
  unfold download_pdf, try_except.
  destruct (download_pdf_try _ _ _ _ _) as [w' [e|o]]; [|done].
  unfold outcome_of_exn. simpl. destruct (is_request_exception e); reflexivity.
Qed.

Lemma download_pdf_fs url download_dir w :
  fs (download_pdf http_get netloc_valid url download_dir w).1
  = fs (download_pdf_try http_get netloc_valid url download_dir w).1.
Proof.
  rewrite download_pdf_catches.
  by destruct (download_pdf_try _ _ _ _ _) as [w' [e|o]].
Qed.

(** The effects of one download: it never raises, keeps the entries of the
    file system, requests the URL once and reports its outcome. *)
Lemma download_pdf_effects url download_dir w :
  exists w' o,
    download_pdf http_get netloc_valid url download_dir w = (w', inr o)
    /\ fs w ⊆ fs w'
    /\ requests w' = requests w ++ [url]
    /\ console w' = console w ++ [report url o].
Proof.
  rewrite download_pdf_catches.
  pose proof (download_pdf_try_effects url download_dir w) as (Hf & Hr & Hc).
  destruct (download_pdf_try _ _ _ _ _) as [w' [e|o]]; simpl in *.
  - eexists _, _. split; [reflexivity|]. simpl.
    rewrite Hc, app_nil_r. done.
  - by exists w', o.
Qed.

Lemma download_loop_cons l links download_dir w :
  download_loop http_get netloc_valid validators_url (l :: links) download_dir w
  = if negb (validate_url validators_url l) then
      match download_pdf http_get netloc_valid (site_origin ++ l) download_dir w with
      | (w1, inl e) => (w1, inl e)
      | (w1, inr _) =>
          download_loop http_get netloc_valid validators_url links download_dir w1
      end
    else download_loop http_get netloc_valid validators_url links download_dir w.
Proof.
  unfold download_loop. cbn [for_each]. unfold bind at 1.
  destruct (negb _); [|reflexivity].
  unfold bind at 1. destruct (download_pdf _ _ _ _ _) as [w1 [e|o]]; reflexivity.
Qed.

(** The loop of [main] downloads the links [validate_url] rejects, one after
    the other, whatever the outcomes. *)
Lemma download_loop_effects links download_dir w :
  exists w',
    download_loop http_get netloc_valid validators_url links download_dir w
    = (w', inr tt)
    /\ fs w ⊆ fs w'
    /\ requests w'
       = requests w
         ++ List.map (app site_origin) (downloaded_links validators_url links)
    /\ length (console w')
       = (length (console w)
          + length (downloaded_links validators_url links))%nat.
Proof.
  revert w. induction links as [|l links IH]; intros w.
  - exists w. cbn. rewrite app_nil_r. split; [done|]. split; [done|]. split; [done|lia].
  - rewrite download_loop_cons. unfold downloaded_links. cbn [List.filter].
    unfold validate_url. destruct (validators_url l); cbn [negb].
    + apply IH.
    + destruct (download_pdf_effects (site_origin ++ l) download_dir w)
        as (w1 & o & -> & Hf & Hr & Hc).
      destruct (IH w1) as (w' & Hl & Hf' & Hr' & Hc').
      exists w'. split; [exact Hl|].
      split; [by etrans|]. split.
      * rewrite Hr', Hr, <- app_assoc. done.
      * rewrite Hc', Hc, length_app. unfold downloaded_links. cbn [length]. lia.
Qed.

Lemma stat_plain m p :
  str_eqb p [] = false -> endswith p [ch_slash] = false -> stat m p = m !! p.
Proof.
  intros Hn He. unfold stat. rewrite Hn, (fs_key_fixed _ He), Hn, He.
  destruct (m !! p) as [[d|]|]; done.
Qed.

Lemma get_url_content_fs target_url w :
  fs (get_url_content http_get target_url w).1 = fs w.
Proof.
  unfold get_url_content, try_except, bind, requests_get.
  destruct (http_get _ _ _) as [e|r]; simpl.
  - destruct (is_request_exception e); reflexivity.
  - destruct (body_error r) as [e|]; simpl.
    + destruct (is_request_exception e); reflexivity.
    + unfold raise_for_status. destruct (_ && _)%bool; reflexivity.
Qed.

(** Appending to a path that holds no regular file keeps every entry. *)
Lemma append_write_to_file_grows system_path content w :
  (forall d, fs w !! system_path <> Some (File d)) ->
  fs w ⊆ fs (append_write_to_file system_path content w).1.
Proof.
  intros Hno. unfold append_write_to_file, bind, open_a.
  destruct (str_eqb system_path []); [done|].
  destruct (endswith system_path [ch_slash]); [done|].
  destruct (fs w !! system_path) as [[d|]|] eqn:E; simpl.
  - by destruct (Hno d).
  - done.
  - unfold file_write. simpl. rewrite lookup_insert_eq. simpl.
    rewrite insert_insert_eq. by apply insert_subseteq.
Qed.

(** A run of [main] keeps every entry of the file system it starts from. *)
Lemma main_keeps_entries w :
  fs w ⊆ fs (main http_get netloc_valid validators_url BeautifulSoup w).1.
Proof.
  unfold main. set (f := cp "mydentitycolor.html").
  assert (forall m, stat m f = m !! f) as Hstat.
  { intros m. apply stat_plain; vm_compute; reflexivity. }
  unfold bind at 1. unfold check_file_exists at 1, os_path_isfile.
  rewrite Hstat.
  set (fetch := if negb _ then _ else _).
  assert (fs w ⊆ fs (fetch w).1) as Hfetch.
  { subst fetch. destruct (fs w !! f) as [[d|]|] eqn:E; cbn [negb]; try done.
    - unfold bind.
      pose proof (get_url_content_fs (cp "https://mydentitycolor.com/sds/") w) as Hg.
      destruct (get_url_content _ _ _) as [w1 [e|[content|]]]; simpl in *;
        try (by rewrite Hg).
      etrans; [|apply append_write_to_file_grows].
      + by rewrite Hg.
      + intros d. rewrite Hg, E. done.
    - unfold bind.
      pose proof (get_url_content_fs (cp "https://mydentitycolor.com/sds/") w) as Hg.
      destruct (get_url_content _ _ _) as [w1 [e|[content|]]]; simpl in *;
        try (by rewrite Hg).
      etrans; [|apply append_write_to_file_grows].
      + by rewrite Hg.
      + intros d. rewrite Hg, E. done. }
  unfold bind at 1. destruct (fetch w) as [w1 [e|[]]]; [done|]. simpl in Hfetch.
  unfold bind at 1. unfold check_file_exists, os_path_isfile.
  destruct (stat (fs w1) f) as [[d|]|] eqn:E; try done.
  unfold bind, read_a_file. rewrite E.
  destruct (download_loop_effects
              (parse_html BeautifulSoup (universal_newlines d)) (cp "PDFs") w1)
    as (w' & -> & Hf & _).
  by etrans.
Qed.

End Effects.

(** ** The outcomes of [download_pdf], case by case *)

(** The download of a response the content-type gate rejects. *)
Lemma download_pdf_rejected http_get nv url download_dir w r :
  http_get (length (requests w)) true url = inr r ->
  status_passes r = true ->
  is_pdf_response r = false ->
  download_pdf http_get nv url download_dir w
  = (World (fs w) (console w ++ [msg_not_pdf url]) (requests w ++ [url]),
     inr SkippedNotPdf).
Proof.
  intros Hget Hst Hct. rewrite download_pdf_catches.
  unfold download_pdf_try, bind, requests_get. rewrite Hget. simpl.
  unfold raise_for_status. unfold status_passes in Hst.
  apply negb_true_iff in Hst. rewrite Hst. simpl.
  unfold is_pdf_response in Hct. rewrite Hct. reflexivity.
Qed.

(** The download of a response with an error status. *)
Lemma download_pdf_http_error http_get nv url download_dir w r :
  http_get (length (requests w)) true url = inr r ->
  status_passes r = false ->
  download_pdf http_get nv url download_dir w
  = (World (fs w) (console w ++ [msg_request_failed (cp "HTTP Error")])
       (requests w ++ [url]),
     inr (FetchFailed (cp "HTTP Error"))).
Proof.
  intros Hget Hst. rewrite download_pdf_catches.
  unfold download_pdf_try, bind, requests_get. rewrite Hget. simpl.
  unfold raise_for_status. unfold status_passes in Hst.
  apply negb_false_iff in Hst. rewrite Hst. reflexivity.
Qed.

Lemma str_eqb_neq s t : s <> t -> str_eqb s t = false.
Proof.
  intros H. destruct (str_eqb s t) eqn:E; [|done]. by apply str_eqb_eq in E.
Qed.

(** [os.makedirs] makes a directory that is not there. *)
Lemma os_makedirs_creates name w :
  fs_key name <> [] -> fs w !! fs_key name = None ->
  fs (os_makedirs name w).1 !! fs_key name = Some Dir.
Proof.
  intros Hk Habs. unfold os_makedirs, stat.
  assert (name <> []) as Hn by (by intros ->).
  rewrite (str_eqb_neq _ _ Hn), (str_eqb_neq _ _ Hk), Habs. simpl.
  apply lookup_insert_eq.
Qed.

(** * The claims *)

(** ** Filename resolution and sanitization *)

(** C1, as stated, fails: a header [attachment; filename=!!!] resolves to the
    filename [!!!], which has no extension and no letter or digit, and its
    sanitized form is the empty name. *)
Lemma sanitized_filename_empty :
  resolve_filename (fun _ => true) (cp "attachment; filename=!!!")
    (cp "https://mydentitycolor.com/sds/a.pdf") = inr (cp "!!!")
  /\ sanitize (cp "!!!") = [].
Proof. split; vm_compute; reflexivity. Qed.

(** C1 (amended).  For every filename the resolution produces, the sanitized
    name is its stem (the part before its last dot) followed by the
    lower-cased extension [os.path.splitext] finds in the resolved filename;
    the stem holds only lower-case letters, digits and underscores, no two
    underscores in a row and none at either end.  The sanitized name is not
    empty exactly when the resolved filename has an extension or its name
    part has a letter or a digit, and always when neither header pattern
    matched (the filename of the URL fallback). *)
Theorem sanitized_filename_shape nv content_disposition url filename :
  resolve_filename nv content_disposition url = inr filename ->
  let r := sanitize filename in
  r = stem_of r ++ lower (splitext filename).2
  /\ stem_chars (stem_of r)
  /\ str_in double_underscore (stem_of r) = false
  /\ head (stem_of r) <> Some ch_underscore
  /\ last (stem_of r) <> Some ch_underscore
  /\ (r <> [] <->
      (splitext filename).2 <> [] \/ keeps_alnum (splitext filename).1 = true)
  /\ (search extended_re content_disposition = None ->
      search simple_re content_disposition = None -> r <> []).
Proof.
  intros Hres r.
  destruct (sanitize_shape filename) as (H1 & H2 & H3 & H4 & H5 & H6).
  do 6 (split; [done|]). intros He Hs.
  unfold resolve_filename in Hres. rewrite He, Hs in Hres.
  apply fallback_filename_pdf in Hres as [t ->]. apply sanitize_pdf_nonempty.
Qed.

Lemma sanitized_filename_shape_witness :
  let filename := cp "My Report (Final).PDF" in
  let r := sanitize filename in
  r = stem_of r ++ lower (splitext filename).2
  /\ stem_chars (stem_of r)
  /\ str_in double_underscore (stem_of r) = false
  /\ head (stem_of r) <> Some ch_underscore
  /\ last (stem_of r) <> Some ch_underscore
  /\ (r <> [] <->
      (splitext filename).2 <> [] \/ keeps_alnum (splitext filename).1 = true)
  /\ (search extended_re (cp "attachment; filename=My Report (Final).PDF") = None ->
      search simple_re (cp "attachment; filename=My Report (Final).PDF") = None ->
      r <> []).
Proof.
  apply (sanitized_filename_shape (fun _ => true)
           (cp "attachment; filename=My Report (Final).PDF")
           (cp "https://mydentitycolor.com/sds/report")).
  vm_compute. reflexivity.
Defined.

(** C10, as stated, fails: [!!!.pdf] sanitizes to [.pdf], whose leading dot
    [os.path.splitext] does not read as the start of an extension, so that a
    second pass yields [pdf]. *)
Lemma sanitize_not_idempotent :
  sanitize (cp "!!!.pdf") = cp ".pdf"
  /\ sanitize (sanitize (cp "!!!.pdf")) = cp "pdf"
  /\ sanitize (sanitize (cp "!!!.pdf")) <> sanitize (cp "!!!.pdf").
Proof. split; [|split]; vm_compute; [reflexivity|reflexivity|discriminate]. Qed.

(** C10 (amended).  Sanitizing twice gives the same name as sanitizing once
    exactly when the sanitized name does not begin with a dot; it begins with
    a dot exactly when the filename has an extension and its name part has no
    letter or digit. *)
Theorem sanitize_idempotent f :
  (sanitize (sanitize f) = sanitize f <-> head (sanitize f) <> Some ch_dot)
  /\ (head (sanitize f) = Some ch_dot <->
      keeps_alnum (splitext f).1 = false /\ (splitext f).2 <> []).
Proof.
  pose proof (sanitize_twice f) as Ht. simpl in Ht.
  destruct (sanitize_stem_shape (splitext f).1) as (Hs & _).
  assert (head (sanitize f) = Some ch_dot <->
          sanitize_stem (splitext f).1 = [] /\ (splitext f).2 <> []) as Hhead.
  { rewrite sanitize_eq.
    destruct (sanitize_stem (splitext f).1) as [|a s] eqn:Es.
    - simpl. destruct (splitext_cases f) as [E|(n & e & _ & _ & _ & E)]; rewrite E; simpl.
      + split; [done|]. by intros [_ ?].
      + done.
    - simpl. split; [|by intros [? _]]. intros [= ->].
      apply Forall_cons in Hs as [Ha _]. done. }
  split.
  - rewrite Hhead, Ht. case_bool_decide as Hn.
    + rewrite sanitize_eq, Hn. simpl.
      destruct (splitext_cases f) as [E|(n & e & _ & _ & _ & E)]; rewrite E; simpl.
      * split; [|done]. by intros _ [_ ?].
      * split; [|intros H; destruct H; done].
        intros Heq. exfalso.
        pose proof (sanitize_stem_shape (ch_dot :: lower e)) as (Hs' & _).
        simpl lower in Heq. rewrite Heq in Hs'.
        apply Forall_cons in Hs' as [Hd _]. done.
    + rewrite sanitize_eq. split; [|done]. by intros _ [? _].
  - rewrite Hhead. by rewrite sanitize_stem_nil.
Qed.

(** C6.  When the header matches the extended pattern (and the simple one as
    well), the filename is the group of the extended pattern without its
    surrounding quotes; the simple pattern decides only for a header the
    extended pattern does not match.  So for every header that holds an
    extended parameter and, after it, a quoted simple parameter, the filename
    is the value of the extended one. *)
Theorem extended_parameter_wins nv content_disposition url g g' :
  search extended_re content_disposition = Some g ->
  search simple_re content_disposition = Some g' ->
  resolve_filename nv content_disposition url = inr (strip ch_quote g)
  /\ (forall cd g2,
        search extended_re cd = None -> search simple_re cd = Some g2 ->
        resolve_filename nv cd url = inr (strip ch_quote g2))
  /\ (forall pre charset v w,
        Forall (fun c => lit_ic 102 c = false) pre ->
        Forall (fun c => not_apostrophe c = true /\ is_space c = false) charset ->
        v <> [] -> Forall (fun c => not_semi_crlf c = true) v ->
        w <> [] -> Forall (fun c => not_quote_semi_crlf c = true) w ->
        is_Some (search simple_re (two_parameters pre charset v w))
        /\ resolve_filename nv (two_parameters pre charset v w) url
           = inr (strip ch_quote v)).
Proof.
  intros He Hs. unfold resolve_filename. rewrite He. split; [done|]. split.
  - intros cd g2 He2 Hs2. by rewrite He2, Hs2.
  - intros pre charset v w Hpre Hcs Hv Hfv Hw Hfw.
    destruct (two_parameters_match pre charset v w Hpre Hcs Hv Hfv Hw Hfw) as [-> H].
    done.
Qed.

Lemma extended_parameter_wins_witness :
  let url := cp "https://mydentitycolor.com/sds/x.pdf" in
  let nv := fun _ : str => true in
  resolve_filename nv both_parameters url = inr (cp "relatorio.pdf")
  /\ (forall cd g2,
        search extended_re cd = None -> search simple_re cd = Some g2 ->
        resolve_filename nv cd url = inr (strip ch_quote g2))
  /\ (forall pre charset v w,
        Forall (fun c => lit_ic 102 c = false) pre ->
        Forall (fun c => not_apostrophe c = true /\ is_space c = false) charset ->
        v <> [] -> Forall (fun c => not_semi_crlf c = true) v ->
        w <> [] -> Forall (fun c => not_quote_semi_crlf c = true) w ->
        is_Some (search simple_re (two_parameters pre charset v w))
        /\ resolve_filename nv (two_parameters pre charset v w) url
           = inr (strip ch_quote v)).
Proof.
  apply (extended_parameter_wins (fun _ => true) both_parameters
           (cp "https://mydentitycolor.com/sds/x.pdf")
           (cp "relatorio.pdf") (cp "other.pdf")).
  - vm_compute. reflexivity.
  - vm_compute. reflexivity.
Defined.

(** C3: the code at an upper-case extension.  When neither header pattern
    matches, the filename is the last segment of the URL path, and [.pdf] is
    appended unless the segment ends in [.pdf] as it is written: line 112
    does not compare case-insensitively.  So, without a filename in the
    headers, the URL [https://mydentitycolor.com/sds/GUIDE.PDF] resolves to
    [GUIDE.PDF.pdf] and is saved as [guide_pdf.pdf], although [parse_html]
    takes the link for a PDF link.  The example of the specification,
    [https://example.com/files/guide], does resolve to [guide.pdf]. *)
Theorem fallback_upper_case_extension nv :
  (forall content_disposition url path,
     search extended_re content_disposition = None ->
     search simple_re content_disposition = None ->
     urlparse_path nv url = Some path ->
     resolve_filename nv content_disposition url
     = inr (if endswith (basename path) (cp ".pdf") then basename path
            else basename path ++ cp ".pdf"))
  /\ resolve_filename nv [] (cp "https://mydentitycolor.com/sds/GUIDE.PDF")
     = inr (cp "GUIDE.PDF.pdf")
  /\ sanitize (cp "GUIDE.PDF.pdf") = cp "guide_pdf.pdf"
  /\ is_pdf_href (cp "/sds/GUIDE.PDF") = true
  /\ resolve_filename nv [] (cp "https://example.com/files/guide")
     = inr (cp "guide.pdf").
Proof.
  split.
  - intros cd url path He Hs Hp. unfold resolve_filename, fallback_filename.
    rewrite He, Hs, Hp. by destruct (endswith _ _).
  - repeat split; vm_compute; reflexivity.
Qed.

(** ** Link extraction *)

(** C4.  For every HTML input, [parse_html] returns the [href] values of the
    anchor elements, as they are written, in document order and with their
    repetitions, keeping exactly those whose percent-decoded, lower-cased
    form ends in [.pdf]; on the two anchors of the example it returns
    [/docs/Report%2C1.pdf] alone. *)
Theorem parse_html_filters_hrefs (BeautifulSoup : str -> list tag) html :
  parse_html BeautifulSoup html
  = List.filter (fun href => endswith (lower (unquote href)) (cp ".pdf"))
      (anchor_hrefs (BeautifulSoup html))
  /\ parse_html (fun _ => example_soup) html = [cp "/docs/Report%2C1.pdf"].
Proof.
  split.
  - unfold parse_html. by rewrite parse_html_loop_filter, find_all_hrefs.
  - vm_compute. reflexivity.
Qed.

(** ** The downloader and the driver *)

(** C2.  The loop of [main] never stops early, and the URLs it hands to the
    downloader (each requested once, in this order) are exactly the extracted
    links that are not valid absolute URLs, in document order, each behind
    the origin of the site; a link that is a valid URL is not requested. *)
Theorem driver_downloads_relative_links
    (http_get : nat -> bool -> str -> exn + response)
    (netloc_valid validators_url : str -> bool)
    (extracted_pdf_urls : list str) (download_dir : str) (w : world) :
  exists w',
    download_loop http_get netloc_valid validators_url
      extracted_pdf_urls download_dir w = (w', inr tt)
    /\ requests w'
       = requests w
         ++ List.map (fun link => site_origin ++ link)
              (List.filter (fun link => negb (validators_url link))
                 extracted_pdf_urls).
Proof.
  destruct (download_loop_effects http_get netloc_valid validators_url
              extracted_pdf_urls download_dir w) as (w' & H1 & _ & H2 & _).
  exists w'. split; [exact H1|exact H2].
Qed.

(** C5, as stated, fails for a response with an error status: line 85 raises
    before line 87 reads the Content-Type, so that a page served as
    [text/html] with the status 404 gives [FetchFailed], not
    [SkippedNotPdf]. *)
Lemma error_status_is_not_skipped :
  let url := cp "https://mydentitycolor.com/sds/a.pdf" in
  let res := download_pdf (fun _ _ _ => inr not_found_response) (fun _ => true)
               url (cp "PDFs") (World ∅ [] []) in
  status_code not_found_response = 404%Z
  /\ is_pdf_response not_found_response = false
  /\ res.2 = inr (FetchFailed (cp "HTTP Error"))
  /\ res.2 <> inr SkippedNotPdf
  /\ console res.1 = [msg_request_failed (cp "HTTP Error")].
Proof. vm_compute. repeat split; try reflexivity. discriminate. Qed.

(** C5 (amended).  When the response passes [raise_for_status] (its status
    is not 4xx or 5xx) and its Content-Type, lower-cased, does not contain
    [application/pdf] (so without the header, too), [download_pdf] reports
    [SkippedNotPdf] for any URL and returns at once: the file system is the
    one it started from, whatever the headers would give as a filename.  A
    response without the PDF content type is not written to disk whatever
    its status; with an error status the download fails before the gate,
    with [FetchFailed], whatever the content type. *)
Theorem content_type_gate_skips
    (http_get : nat -> bool -> str -> exn + response) (netloc_valid : str -> bool)
    (url download_dir : str) (w : world) (r : response) :
  http_get (length (requests w)) true url = inr r ->
  status_passes r = true ->
  is_pdf_response r = false ->
  download_pdf http_get netloc_valid url download_dir w
  = (World (fs w) (console w ++ [msg_not_pdf url]) (requests w ++ [url]),
     inr SkippedNotPdf)
  /\ (forall status chunks error,
        is_pdf_response (Response status [] chunks error) = false)
  /\ (forall http_get' r',
        http_get' (length (requests w)) true url = inr r' ->
        is_pdf_response r' = false ->
        fs (download_pdf http_get' netloc_valid url download_dir w).1 = fs w)
  /\ (forall http_get' r',
        http_get' (length (requests w)) true url = inr r' ->
        status_passes r' = false ->
        exists reason,
          (download_pdf http_get' netloc_valid url download_dir w).2
          = inr (FetchFailed reason)).
Proof.
  intros Hget Hst Hct. split; [by apply (download_pdf_rejected _ _ _ _ _ r)|].
  split; [intros; vm_compute; reflexivity|]. split.
  - intros http_get' r' Hget' Hct'. destruct (status_passes r') eqn:Hst'.
    + by rewrite (download_pdf_rejected http_get' netloc_valid url download_dir w r').
    + by rewrite (download_pdf_http_error http_get' netloc_valid url download_dir w r').
  - intros http_get' r' Hget' Hst'.
    rewrite (download_pdf_http_error http_get' netloc_valid url download_dir w r'
               Hget' Hst').
    simpl. eauto.
Qed.

Lemma content_type_gate_skips_witness :
  let url := cp "https://mydentitycolor.com/sds/a.pdf" in
  let w := World ∅ [] [] in
  download_pdf (fun _ _ _ => inr html_response) (fun _ => true) url (cp "PDFs") w
  = (World ∅ [msg_not_pdf url] [url], inr SkippedNotPdf)
  /\ (forall status chunks error,
        is_pdf_response (Response status [] chunks error) = false)
  /\ (forall http_get' r',
        http_get' (length (requests w)) true url = inr r' ->
        is_pdf_response r' = false ->
        fs (download_pdf http_get' (fun _ => true) url (cp "PDFs") w).1 = fs w)
  /\ (forall http_get' r',
        http_get' (length (requests w)) true url = inr r' ->
        status_passes r' = false ->
        exists reason,
          (download_pdf http_get' (fun _ => true) url (cp "PDFs") w).2
          = inr (FetchFailed reason)).
Proof.
  apply (content_type_gate_skips (fun _ _ _ => inr html_response) (fun _ => true)
           (cp "https://mydentitycolor.com/sds/a.pdf") (cp "PDFs")
           (World ∅ [] []) html_response).
  - reflexivity.
  - vm_compute. reflexivity.
  - vm_compute. reflexivity.
Defined.

(** C9.  A response the content-type gate rejects leaves the file system as
    it was: in particular a download directory that did not exist still does
    not exist.  The directory is made past the gate only: the same call with
    a response that is a PDF, and any filename, makes it. *)
Theorem content_type_gate_no_directory
    (http_get : nat -> bool -> str -> exn + response) (netloc_valid : str -> bool)
    (url download_dir : str) (w : world) (r : response) :
  http_get (length (requests w)) true url = inr r ->
  status_passes r = true ->
  is_pdf_response r = false ->
  let w' := (download_pdf http_get netloc_valid url download_dir w).1 in
  fs w' = fs w
  /\ (stat (fs w) download_dir = None -> stat (fs w') download_dir = None)
  /\ (forall http_get' r' filename,
        http_get' (length (requests w)) true url = inr r' ->
        status_passes r' = true ->
        is_pdf_response r' = true ->
        resolve_filename netloc_valid
          (headers_get (headers r') (cp "Content-Disposition") []) url
        = inr filename ->
        fs_key download_dir <> [] ->
        fs w !! fs_key download_dir = None ->
        fs (download_pdf http_get' netloc_valid url download_dir w).1
          !! fs_key download_dir = Some Dir).
Proof.
  intros Hget Hst Hct w'. subst w'.
  rewrite (download_pdf_rejected http_get netloc_valid url download_dir w r Hget Hst Hct).
  simpl. split; [done|]. split; [done|].
  intros http_get' r' filename Hget' Hst' Hct' Hres Hk Habs.
  rewrite download_pdf_fs.
  pose proof (download_pdf_try_after_makedirs http_get' netloc_valid url
                download_dir w r' filename Hget' Hst' Hct' Hres) as Hsub.
  rewrite map_subseteq_spec in Hsub. apply Hsub.
  by apply os_makedirs_creates.
Qed.

Lemma content_type_gate_no_directory_witness :
  let url := cp "https://mydentitycolor.com/sds/a.pdf" in
  let w := World ∅ [] [] in
  let w' := (download_pdf (fun _ _ _ => inr html_response) (fun _ => true)
               url (cp "PDFs") w).1 in
  fs w' = ∅
  /\ (stat (fs w) (cp "PDFs") = None -> stat (fs w') (cp "PDFs") = None)
  /\ (forall http_get' r' filename,
        http_get' (length (requests w)) true url = inr r' ->
        status_passes r' = true ->
        is_pdf_response r' = true ->
        resolve_filename (fun _ => true)
          (headers_get (headers r') (cp "Content-Disposition") []) url
        = inr filename ->
        fs_key (cp "PDFs") <> [] ->
        fs w !! fs_key (cp "PDFs") = None ->
        fs (download_pdf http_get' (fun _ => true) url (cp "PDFs") w).1
          !! fs_key (cp "PDFs") = Some Dir).
Proof.
  apply (content_type_gate_no_directory (fun _ _ _ => inr html_response)
           (fun _ => true) (cp "https://mydentitycolor.com/sds/a.pdf") (cp "PDFs")
           (World ∅ [] []) html_response).
  - reflexivity.
  - vm_compute. reflexivity.
  - vm_compute. reflexivity.
Defined.

(** C7.  When the response is a PDF, the download directory is a directory
    and the target path exists, [download_pdf] reports [SkippedExisting] and
    leaves the file system as it was.  No download, whatever its outcome,
    changes an entry the file system has.  And a run of [main] keeps every
    file the run before it left behind, with its contents, whatever the
    network answers the second time. *)
Theorem existing_file_is_kept
    (http_get : nat -> bool -> str -> exn + response) (netloc_valid : str -> bool)
    (url download_dir : str) (w : world) (r : response) (filename : str) :
  http_get (length (requests w)) true url = inr r ->
  status_passes r = true ->
  is_pdf_response r = true ->
  resolve_filename netloc_valid
    (headers_get (headers r) (cp "Content-Disposition") []) url = inr filename ->
  stat (fs w) download_dir = Some Dir ->
  is_Some (stat (fs w) (path_join download_dir (sanitize filename))) ->
  download_pdf http_get netloc_valid url download_dir w
  = (World (fs w) (console w ++ [msg_exists (sanitize filename)])
       (requests w ++ [url]),
     inr (SkippedExisting (sanitize filename)))
  /\ (forall get0 nv0 url0 dir0 w0,
        fs w0 ⊆ fs (download_pdf get0 nv0 url0 dir0 w0).1)
  /\ (forall get1 nv1 vu1 soup1 get2 nv2 vu2 soup2 w0 path data,
        let w1 := (main get1 nv1 vu1 soup1 w0).1 in
        let w2 := (main get2 nv2 vu2 soup2 w1).1 in
        fs w1 !! path = Some (File data) -> fs w2 !! path = Some (File data)).
Proof.
  intros Hget Hst Hct Hres Hdir Hex. split; [|split].
  - rewrite download_pdf_catches.
    unfold download_pdf_try, bind, requests_get. rewrite Hget. simpl.
    unfold raise_for_status. unfold status_passes in Hst.
    apply negb_true_iff in Hst. rewrite Hst. simpl.
    unfold is_pdf_response in Hct. rewrite Hct. simpl.
    rewrite Hres. simpl. unfold os_makedirs. simpl. rewrite Hdir.
    unfold os_path_exists. simpl. rewrite (bool_decide_eq_true_2 _ Hex).
    reflexivity.
  - intros get0 nv0 url0 dir0 w0.
    destruct (download_pdf_effects get0 nv0 url0 dir0 w0) as (w' & o & -> & Hf & _).
    exact Hf.
  - intros get1 nv1 vu1 soup1 get2 nv2 vu2 soup2 w0 path data w1 w2 H1.
    pose proof (main_keeps_entries get2 nv2 vu2 soup2 w1) as Hsub.
    rewrite map_subseteq_spec in Hsub. by apply Hsub.
Qed.

Lemma existing_file_is_kept_witness :
  let url := cp "https://mydentitycolor.com/sds/A.pdf" in
  download_pdf (fun _ _ _ => inr pdf_response) (fun _ => true) url (cp "PDFs")
    (World fs_with_file [] [])
  = (World fs_with_file [msg_exists (sanitize (cp "A.pdf"))] [url],
     inr (SkippedExisting (sanitize (cp "A.pdf"))))
  /\ (forall get0 nv0 url0 dir0 w0,
        fs w0 ⊆ fs (download_pdf get0 nv0 url0 dir0 w0).1)
  /\ (forall get1 nv1 vu1 soup1 get2 nv2 vu2 soup2 w0 path data,
        let w1 := (main get1 nv1 vu1 soup1 w0).1 in
        let w2 := (main get2 nv2 vu2 soup2 w1).1 in
        fs w1 !! path = Some (File data) -> fs w2 !! path = Some (File data)).
Proof.
  apply (existing_file_is_kept (fun _ _ _ => inr pdf_response) (fun _ => true)
           (cp "https://mydentitycolor.com/sds/A.pdf") (cp "PDFs")
           (World fs_with_file [] []) pdf_response (cp "A.pdf")).
  - reflexivity.
  - vm_compute. reflexivity.
  - vm_compute. reflexivity.
  - vm_compute. reflexivity.
  - vm_compute. reflexivity.
  - vm_compute. eexists. reflexivity.
Defined.

(** C8, as stated, fails for a status outside 2xx that is not an error
    status: [raise_for_status] raises for 4xx and 5xx only, and a response
    with status 304 goes on to be saved as a file. *)
Lemma status_304_is_downloaded :
  let url := cp "https://mydentitycolor.com/sds/a.pdf" in
  let res := download_pdf (fun _ _ _ => inr not_modified_response) (fun _ => true)
               url (cp "PDFs") (World ∅ [] []) in
  status_code not_modified_response = 304%Z
  /\ res.2 = inr (Downloaded (cp "a.pdf"))
  /\ fs res.1 !! cp "PDFs/a.pdf" = Some (File []).
Proof. vm_compute. repeat split; reflexivity. Qed.

(** C8 (amended).  [download_pdf] returns an outcome on every input and
    prints the line that reports it.  A [RequestException] of the request, and
    so a response with a status 4xx or 5xx, gives [FetchFailed]; every other
    exception of the [try] block gives [UnexpectedError].  The loop of the
    driver runs to its end and every download in it is reported. *)
Theorem download_never_raises
    (http_get : nat -> bool -> str -> exn + response)
    (netloc_valid validators_url : str -> bool)
    (url download_dir : str) (links : list str) (w : world) :
  (exists w' o,
     download_pdf http_get netloc_valid url download_dir w = (w', inr o)
     /\ console w' = console w ++ [report url o])
  /\ (forall w1 e,
        download_pdf_try http_get netloc_valid url download_dir w = (w1, inl e) ->
        (download_pdf http_get netloc_valid url download_dir w).2
        = inr (if is_request_exception e then FetchFailed (exn_text e)
               else UnexpectedError (exn_text e)))
  /\ (forall reason,
        http_get (length (requests w)) true url = inl (RequestException reason) ->
        (download_pdf http_get netloc_valid url download_dir w).2
        = inr (FetchFailed reason))
  /\ (forall r,
        http_get (length (requests w)) true url = inr r ->
        (400 <= status_code r < 600)%Z ->
        (download_pdf http_get netloc_valid url download_dir w).2
        = inr (FetchFailed (cp "HTTP Error")))
  /\ (exists w',
        download_loop http_get netloc_valid validators_url links download_dir w
        = (w', inr tt)
        /\ length (console w')
           = (length (console w)
              + length (List.filter (fun l => negb (validators_url l)) links))%nat).
Proof.
  split; [|split; [|split; [|split]]].
  - destruct (download_pdf_effects http_get netloc_valid url download_dir w)
      as (w' & o & H & _ & _ & Hc). by exists w', o.
  - intros w1 e Htry. rewrite download_pdf_catches, Htry. reflexivity.
  - intros reason Hget. rewrite download_pdf_catches.
    unfold download_pdf_try, bind, requests_get. rewrite Hget. reflexivity.
  - intros r Hget [Hlo Hhi]. rewrite download_pdf_catches.
    unfold download_pdf_try, bind, requests_get. rewrite Hget. simpl.
    unfold raise_for_status.
    apply Z.leb_le in Hlo. apply Z.ltb_lt in Hhi. rewrite Hlo, Hhi. reflexivity.
  - destruct (download_loop_effects http_get netloc_valid validators_url
                links download_dir w) as (w' & H & _ & _ & Hc).
    by exists w'.
Qed.

(** * Further properties of the program *)

(** ** The file helpers *)

(** What a path holds as a regular file: nothing when it is absent. *)
Definition file_data (m : gmap str node) (path : str) : str :=
  match m !! path with Some (File d) => d | _ => [] end.

(** A file name of one component, as [main] uses for the cache file and the
    download directory and as the sanitization gives for most files: not
    empty, not [.] or [..], of at most 255 characters, each an ASCII
    character other than NUL and the slash.  Such a name lies in the
    directory it is joined to, every file system takes it, and the entry the
    map keeps under it is the node the path names. *)
Definition is_name_char (c : N) : bool :=
  in_range 1 127 c && negb (c =? ch_slash).

Definition plain_name (p : str) : bool :=
  negb (str_eqb p []) && negb (str_eqb p [ch_dot])
  && negb (str_eqb p [ch_dot; ch_dot])
  && forallb is_name_char p && (length p <=? 255)%nat.

(** The text a text file can hold: every code point but the surrogates,
    which no encoding of text files writes. *)
Definition is_text_char (c : N) : bool :=
  (c <? 55296) || in_range 57344 1114111 c.

Definition encodable (s : str) : bool := forallb is_text_char s.

Lemma plain_name_path p :
  plain_name p = true -> str_eqb p [] = false /\ endswith p [ch_slash] = false.
Proof.
  unfold plain_name. rewrite !andb_true_iff, !negb_true_iff.
  intros ((((Hn & _) & _) & Hall) & _). split; [done|].
  destruct (endswith p [ch_slash]) eqn:E; [|done].
  apply endswith_suffix in E as [t ->].
  rewrite forallb_app in Hall. apply andb_true_iff in Hall as [_ Hall].
  simpl in Hall. discriminate.
Qed.

(** X1.  Appending text without surrogates to a file of the working
    directory, given by its name, succeeds unless the name is that of a
    directory; afterwards the name is that of a regular file, which holds
    what it held before followed by the content (the content alone for a new
    file), [check_file_exists] finds it, and [read_a_file] returns that text
    with every CR LF and every CR of it turned into LF; no other path
    changes. *)
Theorem append_then_read system_path content w :
  plain_name system_path = true ->
  encodable content = true ->
  fs w !! system_path <> Some Dir ->
  exists w',
    append_write_to_file system_path content w = (w', inr tt)
    /\ fs w' !! system_path
       = Some (File (file_data (fs w) system_path ++ content))
    /\ read_a_file system_path w'
       = (w', inr (universal_newlines (file_data (fs w) system_path ++ content)))
    /\ check_file_exists system_path w' = (w', inr true)
    /\ (forall p, p <> system_path -> fs w' !! p = fs w !! p)
    /\ console w' = console w /\ requests w' = requests w.
Proof.
  intros Hp _ Hd. destruct (plain_name_path _ Hp) as [Hn He].
  assert (forall m, stat m system_path = m !! system_path) as Hstat.
  { intros m. by apply stat_plain. }
  unfold append_write_to_file, bind, open_a, file_data.
  rewrite Hn, He.
  destruct (fs w !! system_path) as [[d|]|] eqn:E; [|done|].
  - unfold file_write. rewrite E. eexists. split; [reflexivity|].
    unfold read_a_file, check_file_exists, os_path_isfile. rewrite !Hstat. simpl.
    rewrite lookup_insert_eq. repeat split; try done.
    intros p Hne. by rewrite lookup_insert_ne.
  - unfold file_write. simpl. rewrite lookup_insert_eq. simpl.
    rewrite insert_insert_eq. eexists. split; [reflexivity|].
    unfold read_a_file, check_file_exists, os_path_isfile. rewrite !Hstat. simpl.
    rewrite lookup_insert_eq. repeat split; try done.
    intros p Hne. by rewrite lookup_insert_ne.
Qed.

(** A file that ends in a CR, to which a line that starts with LF is added. *)
Definition fs_with_notes : gmap str node :=
  <[cp "notes.txt" := File (cp "one" ++ [13])]> ∅.

Lemma append_then_read_witness :
  let w := World fs_with_notes [] [] in
  let content := 10 :: cp "two" ++ [13; 13; 10] in
  exists w',
    append_write_to_file (cp "notes.txt") content w = (w', inr tt)
    /\ fs w' !! cp "notes.txt"
       = Some (File (file_data (fs w) (cp "notes.txt") ++ content))
    /\ read_a_file (cp "notes.txt") w'
       = (w', inr (universal_newlines
                     (file_data (fs w) (cp "notes.txt") ++ content)))
    /\ check_file_exists (cp "notes.txt") w' = (w', inr true)
    /\ (forall p, p <> cp "notes.txt" -> fs w' !! p = fs w !! p)
    /\ console w' = console w /\ requests w' = requests w.
Proof.
  apply (append_then_read (cp "notes.txt") (10 :: cp "two" ++ [13; 13; 10])
           (World fs_with_notes [] [])).
  - vm_compute. reflexivity.
  - vm_compute. reflexivity.
  - vm_compute. discriminate.
Defined.

(** ** The page fetch *)

(** The seed page and the cache file of [main]. *)
Definition url_to_fetch : str := cp "https://mydentitycolor.com/sds/".
Definition local_html_file : str := cp "mydentitycolor.html".

(** X2.  [get_url_content] requests the URL once and never touches the file
    system.  A [RequestException] of the request, of the body, or of an error
    status makes it print one line and return [None]; any other exception
    goes on to its caller with nothing printed; otherwise it returns the text
    of the response. *)
Theorem get_url_content_outcomes
    (http_get : nat -> bool -> str -> exn + response) (target_url : str) (w : world) :
  let res := get_url_content http_get target_url w in
  let failed e :=
    if is_request_exception e
    then res.2 = inr None
         /\ console res.1
            = console w ++ [cp "Error fetching URL content: " ++ exn_text e]
    else res.2 = inl e /\ console res.1 = console w in
  fs res.1 = fs w
  /\ requests res.1 = requests w ++ [target_url]
  /\ match http_get (length (requests w)) false target_url with
     | inl e => failed e
     | inr r =>
         match body_error r with
         | Some e => failed e
         | None =>
             if status_passes r
             then res.2 = inr (Some (response_text r)) /\ console res.1 = console w
             else failed (RequestException (cp "HTTP Error"))
         end
     end.
Proof.
  unfold get_url_content, try_except, bind, requests_get, status_passes.
  destruct (http_get _ _ _) as [e|r]; simpl.
  - destruct (is_request_exception e); simpl; done.
  - destruct (body_error r) as [e|]; simpl.
    + destruct (is_request_exception e); simpl; done.
    + unfold raise_for_status. destruct (_ && _)%bool; simpl; done.
Qed.

(** ** The driver *)

Section Driver.

Variable http_get : nat -> bool -> str -> exn + response.
Variable netloc_valid : str -> bool.
Variable validators_url : str -> bool.
Variable BeautifulSoup : str -> list tag.

Local Abbreviation run_main := (main http_get netloc_valid validators_url BeautifulSoup).
Local Abbreviation run_loop :=
  (download_loop http_get netloc_valid validators_url).

Lemma stat_cache m : stat m local_html_file = m !! local_html_file.
Proof. apply stat_plain; vm_compute; reflexivity. Qed.

Lemma append_cache_dir w content :
  fs w !! local_html_file = Some Dir ->
  append_write_to_file local_html_file content w
  = (w, inl (OSError (cp "Is a directory"))).
Proof.
  intros E. unfold append_write_to_file, bind, open_a.
  replace (str_eqb local_html_file []) with false by (vm_compute; reflexivity).
  replace (endswith local_html_file [ch_slash]) with false by (vm_compute; reflexivity).
  by rewrite E.
Qed.

Lemma append_cache_new w content :
  fs w !! local_html_file = None ->
  append_write_to_file local_html_file content w
  = (set_fs (<[local_html_file := File content]> (fs w)) w, inr tt).
Proof.
  intros E. unfold append_write_to_file, bind, open_a.
  replace (str_eqb local_html_file []) with false by (vm_compute; reflexivity).
  replace (endswith local_html_file [ch_slash]) with false by (vm_compute; reflexivity).
  rewrite E. unfold file_write. simpl. rewrite lookup_insert_eq. simpl.
  by rewrite insert_insert_eq.
Qed.

(** With the cache file in place [main] is the loop over its links. *)
Lemma main_cached w d :
  fs w !! local_html_file = Some (File d) ->
  run_main w
  = run_loop (parse_html BeautifulSoup (universal_newlines d)) (cp "PDFs") w.
Proof.
  intros Hc. unfold main. fold local_html_file.
  unfold bind at 1. unfold check_file_exists at 1, os_path_isfile.
  rewrite stat_cache, Hc. cbn [negb].
  unfold bind at 1, ret at 1.
  unfold bind at 1. unfold check_file_exists, os_path_isfile.
  rewrite stat_cache, Hc.
  unfold bind at 1, read_a_file. rewrite stat_cache, Hc. reflexivity.
Qed.

(** Without it [main] fetches the page first. *)
Lemma main_not_cached w :
  (forall d, fs w !! local_html_file <> Some (File d)) ->
  run_main w
  = match get_url_content http_get url_to_fetch w with
    | (w1, inl e) => (w1, inl e)
    | (w1, inr None) => (w1, inr tt)
    | (w1, inr (Some content)) =>
        match append_write_to_file local_html_file content w1 with
        | (w2, inl e) => (w2, inl e)
        | (w2, inr _) =>
            run_loop (parse_html BeautifulSoup (universal_newlines content))
              (cp "PDFs") w2
        end
    end.
Proof.
  intros Hc. unfold main. fold local_html_file url_to_fetch.
  unfold bind at 1. unfold check_file_exists at 1, os_path_isfile.
  rewrite stat_cache.
  assert (match fs w !! local_html_file with Some (File _) => true | _ => false end
          = false) as ->.
  { destruct (fs w !! local_html_file) as [[d|]|] eqn:E; try done. by destruct (Hc d). }
  cbn [negb]. unfold bind at 1. unfold bind at 1.
  pose proof (get_url_content_fs http_get url_to_fetch w) as Hfs.
  destruct (get_url_content http_get url_to_fetch w) as [w1 [e|[content|]]];
    simpl in Hfs; [done| |].
  - destruct (fs w !! local_html_file) as [[d|]|] eqn:E.
    + by destruct (Hc d).
    + rewrite <- Hfs in E. rewrite (append_cache_dir _ _ E). reflexivity.
    + rewrite <- Hfs in E. rewrite (append_cache_new _ _ E).
      unfold bind at 1. unfold check_file_exists, os_path_isfile.
      rewrite stat_cache. simpl. rewrite lookup_insert_eq.
      unfold bind at 1, read_a_file. rewrite stat_cache. simpl.
      rewrite lookup_insert_eq. reflexivity.
  - unfold ret at 1. unfold bind at 1. unfold check_file_exists, os_path_isfile.
    rewrite stat_cache, Hfs.
    destruct (fs w !! local_html_file) as [[d|]|] eqn:E; try reflexivity.
    by destruct (Hc d).
Qed.

End Driver.

(** The page fetch fails in the way [get_url_content] handles: with a
    [RequestException] of the request or of the body, or an error status. *)
Definition page_fetch_fails (res : exn + response) : bool :=
  match res with
  | inl e => is_request_exception e
  | inr r =>
      match body_error r with
      | Some e => is_request_exception e
      | None => negb (status_passes r)
      end
  end.

(** A cached page that is the text of one link, with a CR in it, and a
    stand-in for the parser that takes the whole text for the [href] of one
    anchor. *)
Definition cached_link : str := cp "/a" ++ [13] ++ cp ".pdf".

Definition cached_link_world : world :=
  World (<[local_html_file := File cached_link]> ∅) [] [].

Definition one_anchor (html : str) : list tag :=
  [Tag (cp "a") [(cp "href", html)]].

(** X3.  With the cache file in place, [main] does not fetch the page: it
    ends normally, leaves the cache file as it is, and its requests are the
    downloads of the links that are not valid URLs, in their order.  The
    links are those of the cached text as [read_a_file] returns it, with LF
    for every CR LF and every CR: a CR inside an [href] of the file reaches
    the request as LF. *)
Theorem main_uses_cache
    (http_get : nat -> bool -> str -> exn + response)
    (netloc_valid validators_url : str -> bool)
    (BeautifulSoup : str -> list tag) (w : world) (cached : str) :
  fs w !! local_html_file = Some (File cached) ->
  exists w',
    main http_get netloc_valid validators_url BeautifulSoup w = (w', inr tt)
    /\ fs w' !! local_html_file = Some (File cached)
    /\ requests w'
       = requests w
         ++ List.map (fun link => site_origin ++ link)
              (List.filter (fun link => negb (validators_url link))
                 (parse_html BeautifulSoup (universal_newlines cached))).
Proof.
  intros Hc. rewrite (main_cached _ _ _ _ _ _ Hc).
  destruct (download_loop_effects http_get netloc_valid validators_url
              (parse_html BeautifulSoup (universal_newlines cached))
              (cp "PDFs") w)
    as (w' & H1 & Hsub & H2 & _).
  exists w'. split; [exact H1|]. split; [|exact H2].
  rewrite map_subseteq_spec in Hsub. by apply Hsub.
Qed.

Lemma main_uses_cache_witness :
  exists w',
    main example_get (fun _ => true) (fun _ => false) one_anchor
      cached_link_world = (w', inr tt)
    /\ fs w' !! local_html_file = Some (File cached_link)
    /\ requests w'
       = requests cached_link_world
         ++ List.map (fun link => site_origin ++ link)
              (List.filter (fun link => negb ((fun _ => false) link))
                 (parse_html one_anchor (universal_newlines cached_link))).
Proof.
  apply (main_uses_cache example_get (fun _ => true) (fun _ => false)
           one_anchor cached_link_world cached_link).
  vm_compute. reflexivity.
Defined.

(** X4.  Without a cache file, a page fetched with success, whose text holds
    no surrogate, is saved as it came, and [main] goes on as the loop over
    the links of the text it reads back from the file, in which every CR LF
    and every CR of the page is LF: it ends normally, the cache file holds
    the text of the page, and the requests are the page followed by the
    downloads. *)
Theorem main_first_run
    (http_get : nat -> bool -> str -> exn + response)
    (netloc_valid validators_url : str -> bool)
    (BeautifulSoup : str -> list tag) (w : world) (r : response) :
  fs w !! local_html_file = None ->
  http_get (length (requests w)) false url_to_fetch = inr r ->
  body_error r = None ->
  status_passes r = true ->
  encodable (response_text r) = true ->
  let links := parse_html BeautifulSoup (universal_newlines (response_text r)) in
  main http_get netloc_valid validators_url BeautifulSoup w
  = download_loop http_get netloc_valid validators_url links (cp "PDFs")
      (World (<[local_html_file := File (response_text r)]> (fs w))
         (console w) (requests w ++ [url_to_fetch]))
  /\ exists w',
       main http_get netloc_valid validators_url BeautifulSoup w = (w', inr tt)
       /\ fs w' !! local_html_file = Some (File (response_text r))
       /\ requests w'
          = requests w
            ++ url_to_fetch
               :: List.map (fun link => site_origin ++ link)
                    (List.filter (fun link => negb (validators_url link)) links).
Proof.
  intros Hc Hget Hbody Hst _ links.
  assert (main http_get netloc_valid validators_url BeautifulSoup w
          = download_loop http_get netloc_valid validators_url links (cp "PDFs")
              (World (<[local_html_file := File (response_text r)]> (fs w))
                 (console w) (requests w ++ [url_to_fetch]))) as Hmain.
  { rewrite main_not_cached; [|intros d; by rewrite Hc].
    unfold get_url_content, try_except, bind, requests_get.
    rewrite Hget, Hbody. simpl. unfold raise_for_status.
    unfold status_passes in Hst. apply negb_true_iff in Hst. rewrite Hst. simpl.
    rewrite append_cache_new; [reflexivity|exact Hc]. }
  split; [exact Hmain|]. rewrite Hmain.
  destruct (download_loop_effects http_get netloc_valid validators_url
              links (cp "PDFs")
              (World (<[local_html_file := File (response_text r)]> (fs w))
                 (console w) (requests w ++ [url_to_fetch])))
    as (w' & H1 & Hsub & H2 & _).
  exists w'. split; [exact H1|]. split.
  - rewrite map_subseteq_spec in Hsub. apply Hsub. simpl. apply lookup_insert_eq.
  - rewrite H2. simpl. by rewrite <- app_assoc.
Qed.

(** A page that is the text of one link with a CR in it, and a network that
    serves it and, to a download, a PDF. *)
Definition link_page_response : response :=
  Response 200 [(cp "Content-Type", cp "text/html")] [cp "/a"; [13]; cp ".pdf"] None.

Definition link_page_get (n : nat) (stream : bool) (url : str)
  : exn + response :=
  inr (if stream then pdf_response else link_page_response).

Lemma main_first_run_witness :
  let w := World ∅ [] [] in
  let nv := fun _ : str => true in
  let vu := fun _ : str => false in
  let links :=
    parse_html one_anchor (universal_newlines (response_text link_page_response)) in
  main link_page_get nv vu one_anchor w
  = download_loop link_page_get nv vu links (cp "PDFs")
      (World (<[local_html_file := File (response_text link_page_response)]> (fs w))
         (console w) (requests w ++ [url_to_fetch]))
  /\ exists w',
       main link_page_get nv vu one_anchor w = (w', inr tt)
       /\ fs w' !! local_html_file
          = Some (File (response_text link_page_response))
       /\ requests w'
          = requests w
            ++ url_to_fetch
               :: List.map (fun link => site_origin ++ link)
                    (List.filter (fun link => negb (vu link)) links).
Proof.
  apply (main_first_run link_page_get (fun _ => true) (fun _ => false)
           one_anchor (World ∅ [] []) link_page_response).
  - reflexivity.
  - reflexivity.
  - reflexivity.
  - vm_compute. reflexivity.
  - vm_compute. reflexivity.
Defined.

(** X5.  When the cache file is missing and the page fetch fails with a
    [RequestException] or an error status, [main] prints one line and ends
    normally: nothing is written, no cache file appears, and no download is
    attempted. *)
Theorem main_page_fetch_fails
    (http_get : nat -> bool -> str -> exn + response)
    (netloc_valid validators_url : str -> bool)
    (BeautifulSoup : str -> list tag) (w : world) :
  (forall d, fs w !! local_html_file <> Some (File d)) ->
  page_fetch_fails (http_get (length (requests w)) false url_to_fetch) = true ->
  exists line,
    main http_get netloc_valid validators_url BeautifulSoup w
    = (World (fs w) (console w ++ [line]) (requests w ++ [url_to_fetch]), inr tt).
Proof.
  intros Hc Hfail. rewrite main_not_cached; [|exact Hc].
  unfold get_url_content, try_except, bind, requests_get.
  unfold page_fetch_fails in Hfail.
  destruct (http_get _ _ _) as [e|r]; simpl.
  - rewrite Hfail. simpl. eauto.
  - destruct (body_error r) as [e|]; simpl.
    + rewrite Hfail. simpl. eauto.
    + unfold raise_for_status. unfold status_passes in Hfail.
      rewrite negb_involutive in Hfail. rewrite Hfail. simpl. eauto.
Qed.

Lemma main_page_fetch_fails_witness :
  let w := World ∅ [] [] in
  exists line,
    main (fun _ _ _ => inl (RequestException (cp "timed out"))) (fun _ => true)
      (fun _ => false) (fun _ => example_soup) w
    = (World (fs w) (console w ++ [line]) (requests w ++ [url_to_fetch]), inr tt).
Proof.
  apply (main_page_fetch_fails (fun _ _ _ => inl (RequestException (cp "timed out")))
           (fun _ => true) (fun _ => false) (fun _ => example_soup) (World ∅ [] [])).
  - intros d. vm_compute. discriminate.
  - reflexivity.
Defined.

(** X6.  [main] has no handler of its own.  When the cache file is missing,
    an exception of the page fetch that is not a [RequestException] leaves
    [main] as it is, and so does the error of writing the page when the cache
    path is a directory; in both cases nothing is written and no download is
    attempted. *)
Theorem main_lets_exceptions_through
    (http_get : nat -> bool -> str -> exn + response)
    (netloc_valid validators_url : str -> bool)
    (BeautifulSoup : str -> list tag) (w : world) :
  (forall d, fs w !! local_html_file <> Some (File d)) ->
  let w1 := World (fs w) (console w) (requests w ++ [url_to_fetch]) in
  (forall e,
     http_get (length (requests w)) false url_to_fetch = inl e ->
     is_request_exception e = false ->
     main http_get netloc_valid validators_url BeautifulSoup w = (w1, inl e))
  /\ (forall r,
        http_get (length (requests w)) false url_to_fetch = inr r ->
        body_error r = None -> status_passes r = true ->
        fs w !! local_html_file = Some Dir ->
        main http_get netloc_valid validators_url BeautifulSoup w
        = (w1, inl (OSError (cp "Is a directory")))).
Proof.
  intros Hc w1. split.
  - intros e Hget He. rewrite main_not_cached; [|exact Hc].
    unfold get_url_content, try_except, bind, requests_get.
    rewrite Hget. simpl. rewrite He. reflexivity.
  - intros r Hget Hbody Hst Hd. rewrite main_not_cached; [|exact Hc].
    unfold get_url_content, try_except, bind, requests_get.
    rewrite Hget, Hbody. simpl. unfold raise_for_status.
    unfold status_passes in Hst. apply negb_true_iff in Hst. rewrite Hst. simpl.
    rewrite append_cache_dir; [reflexivity|exact Hd].
Qed.

Lemma main_lets_exceptions_through_witness :
  let http_get := fun (_ : nat) (_ : bool) (_ : str) =>
                    @inl exn response (ValueError (cp "bad URL")) in
  let w := World ∅ [] [] in
  let w1 := World (fs w) (console w) (requests w ++ [url_to_fetch]) in
  (forall e,
     http_get (length (requests w)) false url_to_fetch = inl e ->
     is_request_exception e = false ->
     main http_get (fun _ => true) (fun _ => false) (fun _ => example_soup) w
     = (w1, inl e))
  /\ (forall r,
        http_get (length (requests w)) false url_to_fetch = inr r ->
        body_error r = None -> status_passes r = true ->
        fs w !! local_html_file = Some Dir ->
        main http_get (fun _ => true) (fun _ => false) (fun _ => example_soup) w
        = (w1, inl (OSError (cp "Is a directory")))).
Proof.
  apply (main_lets_exceptions_through
           (fun _ _ _ => inl (ValueError (cp "bad URL")))
           (fun _ => true) (fun _ => false) (fun _ => example_soup) (World ∅ [] [])).
  intros d. vm_compute. discriminate.
Defined.

(** ** The target path *)

Lemma sanitize_no_slash f : ch_slash ∉ sanitize f.
Proof.
  rewrite sanitize_eq.
  destruct (sanitize_stem_shape (splitext f).1) as (Hs & _).
  intros Hin. apply elem_of_app in Hin as [Hin|Hin].
  - by apply (stem_chars_absent ch_slash _ eq_refl Hs).
  - destruct (splitext_cases f) as [E|(n & e & _ & _ & Hse & E)];
      rewrite E in Hin; simpl in Hin.
    + by apply elem_of_nil in Hin.
    + apply elem_of_cons in Hin as [Hin|Hin]; [done|].
      by apply (lower_small_absent ch_slash e).
Qed.

Lemma last_not_endswith c s : last s <> Some c -> endswith s [c] = false.
Proof.
  intros H. destruct (endswith s [c]) eqn:E; [|done].
  apply endswith_suffix in E as [t ->]. by rewrite last_snoc in H.
Qed.

Lemma startswith_head c s : head s <> Some c -> startswith s [c] = false.
Proof.
  destruct s as [|a s]; [done|]. simpl. intros H.
  destruct (N.eqb_spec a c) as [->|]; [done|done].
Qed.

(** The target path is the directory, a slash unless the directory ends in
    one, and the name. *)
Lemma path_join_sanitize download_dir f :
  path_join download_dir (sanitize f)
  = download_dir
    ++ (if str_eqb download_dir [] || endswith download_dir [ch_slash]
        then [] else [ch_slash])
    ++ sanitize f.
Proof.
  unfold path_join. rewrite startswith_head.
  - by destruct (_ || _).
  - intros Hh. apply (sanitize_no_slash f).
    destruct (sanitize f) as [|a s]; [done|]. injection Hh as ->.
    by apply elem_of_cons; left.
Qed.

Lemma fs_key_slash p : fs_key (p ++ [ch_slash]) = fs_key p.
Proof.
  unfold fs_key, rstrip. rewrite reverse_app. reflexivity.
Qed.

(** A directory is found under its name followed by a slash, too. *)
Lemma stat_dir_slash m p : stat m p = Some Dir -> stat m (p ++ [ch_slash]) = Some Dir.
Proof.
  unfold stat. destruct (str_eqb p []) eqn:Hp; [done|].
  assert (str_eqb (p ++ [ch_slash]) [] = false) as ->.
  { apply str_eqb_neq. by destruct p. }
  rewrite fs_key_slash. destruct (str_eqb (fs_key p) []); [done|].
  destruct (m !! fs_key p) as [[d|]|]; try done.
  by destruct (endswith p [ch_slash]).
Qed.

(** Next to an existing directory, a target path that does not exist has a
    name: it is not empty and does not end in a slash. *)
Lemma target_path_plain m download_dir f :
  stat m download_dir = Some Dir ->
  stat m (path_join download_dir (sanitize f)) = None ->
  str_eqb (path_join download_dir (sanitize f)) [] = false
  /\ endswith (path_join download_dir (sanitize f)) [ch_slash] = false.
Proof.
  intros Hd Hp. rewrite path_join_sanitize in *.
  assert (download_dir <> []) as Hne by (by intros ->).
  rewrite (str_eqb_neq _ _ Hne) in *. simpl in *.
  pose proof (sanitize_no_slash f) as Hns.
  destruct (sanitize f) as [|a s] eqn:Es.
  - exfalso. rewrite app_nil_r in Hp.
    destruct (endswith download_dir [ch_slash]).
    + rewrite app_nil_r in Hp. congruence.
    + rewrite (stat_dir_slash _ _ Hd) in Hp. congruence.
  - split.
    + apply str_eqb_neq. by destruct download_dir.
    + apply last_not_endswith. rewrite !last_app.
      destruct (last (a :: s)) as [c|] eqn:El.
      * intros [= ->]. apply Hns. by apply last_Some_elem_of.
      * by apply last_None in El.
Qed.

Lemma os_makedirs_dir name w :
  (os_makedirs name w).2 = inr tt -> stat (fs (os_makedirs name w).1) name = Some Dir.
Proof.
  unfold os_makedirs.
  destruct (stat (fs w) name) as [[d|]|] eqn:E; simpl; try done.
  destruct (str_eqb name []) eqn:Hn; [done|].
  destruct (fs w !! fs_key name) eqn:Ek; [done|]. simpl. intros _.
  unfold stat in *. rewrite Hn in *.
  destruct (str_eqb (fs_key name) []); [done|]. by rewrite lookup_insert_eq.
Qed.

(** ** What a download writes *)

(** [os.makedirs] reads and changes the file system only. *)
Lemma os_makedirs_frame name w c q :
  os_makedirs name (World (fs w) c q)
  = (World (fs (os_makedirs name w).1) c q, (os_makedirs name w).2).
Proof.
  unfold os_makedirs. simpl.
  destruct (stat (fs w) name) as [[d|]|]; try reflexivity.
  destruct (str_eqb name []); [reflexivity|].
  destruct (fs w !! fs_key name); reflexivity.
Qed.

(** The outcome of a download that receives its whole body or a part of
    it. *)
Definition outcome_of_body (r : response) (filename : str) : outcome :=
  match body_error r with
  | None => Downloaded filename
  | Some e => outcome_of_exn e
  end.

(** A PDF response whose target path is free: the chunks the body yields are
    written to the target path, and the outcome is [Downloaded] when the body
    ends, the outcome of the exception when it breaks. *)
Lemma download_pdf_writes http_get nv url download_dir w r filename :
  http_get (length (requests w)) true url = inr r ->
  status_passes r = true ->
  is_pdf_response r = true ->
  resolve_filename nv (headers_get (headers r) (cp "Content-Disposition") []) url
  = inr filename ->
  (os_makedirs download_dir w).2 = inr tt ->
  stat (fs (os_makedirs download_dir w).1)
    (path_join download_dir (sanitize filename)) = None ->
  download_pdf http_get nv url download_dir w
  = (World (<[path_join download_dir (sanitize filename)
              := File (concat (body r))]> (fs (os_makedirs download_dir w).1))
       (console w ++ [report url (outcome_of_body r (sanitize filename))])
       (requests w ++ [url]),
     inr (outcome_of_body r (sanitize filename))).
Proof.
  intros Hget Hst Hct Hres Hmk Hfree.
  pose proof (os_makedirs_dir download_dir w Hmk) as Hdir.
  destruct (target_path_plain _ _ _ Hdir Hfree) as [Hn He].
  pose proof (stat_absent _ _ Hn He Hfree) as Habs.
  rewrite download_pdf_catches.
  unfold download_pdf_try, bind, requests_get. rewrite Hget. simpl.
  unfold raise_for_status. unfold status_passes in Hst.
  apply negb_true_iff in Hst. rewrite Hst. simpl.
  unfold is_pdf_response in Hct. rewrite Hct. simpl. rewrite Hres. simpl.
  rewrite os_makedirs_frame, Hmk.
  unfold os_path_exists. simpl. rewrite Hfree.
  rewrite bool_decide_eq_false_2; [|by intros [x Hx]].
  unfold open_wb. rewrite Hn, He. simpl. rewrite Habs.
  set (path := path_join download_dir (sanitize filename)) in *.
  set (m2 := fs (os_makedirs download_dir w).1) in *.
  rewrite (write_chunks path (body r) _ []); [|apply lookup_insert_eq].
  simpl. rewrite insert_insert_eq.
  unfold outcome_of_body. destruct (body_error r) as [e|]; reflexivity.
Qed.

(** The download of a PDF whose target path exists. *)
Lemma download_pdf_skips http_get nv url download_dir w r filename :
  http_get (length (requests w)) true url = inr r ->
  status_passes r = true ->
  is_pdf_response r = true ->
  resolve_filename nv (headers_get (headers r) (cp "Content-Disposition") []) url
  = inr filename ->
  stat (fs w) download_dir = Some Dir ->
  is_Some (stat (fs w) (path_join download_dir (sanitize filename))) ->
  download_pdf http_get nv url download_dir w
  = (World (fs w) (console w ++ [msg_exists (sanitize filename)])
       (requests w ++ [url]),
     inr (SkippedExisting (sanitize filename))).
Proof.
  intros Hget Hst Hct Hres Hdir Hex.
  rewrite download_pdf_catches.
  unfold download_pdf_try, bind, requests_get. rewrite Hget. simpl.
  unfold raise_for_status. unfold status_passes in Hst.
  apply negb_true_iff in Hst. rewrite Hst. simpl.
  unfold is_pdf_response in Hct. rewrite Hct. simpl.
  rewrite Hres. simpl. unfold os_makedirs. simpl. rewrite Hdir.
  unfold os_path_exists. simpl. rewrite (bool_decide_eq_true_2 _ Hex).
  reflexivity.
Qed.

Lemma stat_mono m m' p x : m ⊆ m' -> stat m p = Some x -> stat m' p = Some x.
Proof.
  intros Hsub. rewrite map_subseteq_spec in Hsub. unfold stat.
  destruct (str_eqb p []); [done|]. destruct (str_eqb (fs_key p) []); [done|].
  destruct (m !! fs_key p) as [[d|]|] eqn:E; [| |done].
  - rewrite (Hsub _ _ E). done.
  - rewrite (Hsub _ _ E). done.
Qed.

Lemma os_makedirs_other name w p :
  p <> fs_key name -> fs (os_makedirs name w).1 !! p = fs w !! p.
Proof.
  intros Hp. unfold os_makedirs.
  destruct (stat (fs w) name) as [[d|]|]; try reflexivity.
  destruct (str_eqb name []); [reflexivity|].
  destruct (fs w !! fs_key name); [reflexivity|]. simpl.
  by rewrite lookup_insert_ne.
Qed.

(** A PDF of two chunks whose connection breaks after them. *)
Definition broken_response : response :=
  Response 200 [(cp "Content-Type", cp "application/pdf")]
    [cp "%PDF-1.7"; cp "1 0 obj"]
    (Some (RequestException (cp "Connection broken"))).

(** X7.  A PDF response whose body arrives whole, for a download directory
    given by its name and a sanitized name that is a file name of its own,
    when the target path is free: the outcome is [Downloaded], the download
    directory is there, the file under the target path holds the chunks of
    the body one after the other, and no path but the target and the
    directory changes. *)
Theorem download_saves_body
    (http_get : nat -> bool -> str -> exn + response) (netloc_valid : str -> bool)
    (url download_dir : str) (w : world) (r : response) (filename : str) :
  http_get (length (requests w)) true url = inr r ->
  status_passes r = true ->
  is_pdf_response r = true ->
  resolve_filename netloc_valid
    (headers_get (headers r) (cp "Content-Disposition") []) url = inr filename ->
  body_error r = None ->
  plain_name download_dir = true ->
  plain_name (sanitize filename) = true ->
  (os_makedirs download_dir w).2 = inr tt ->
  stat (fs (os_makedirs download_dir w).1)
    (path_join download_dir (sanitize filename)) = None ->
  let res := download_pdf http_get netloc_valid url download_dir w in
  let file_path := path_join download_dir (sanitize filename) in
  res.2 = inr (Downloaded (sanitize filename))
  /\ file_path = download_dir ++ ch_slash :: sanitize filename
  /\ fs res.1 !! file_path = Some (File (concat (body r)))
  /\ fs res.1 !! download_dir = Some Dir
  /\ (forall p, p <> file_path -> p <> download_dir ->
                fs res.1 !! p = fs w !! p)
  /\ console res.1 = console w ++ [msg_downloaded (sanitize filename)].
Proof.
  intros Hget Hst Hct Hres Hbody Hpd Hpn Hmk Hfree res file_path. subst res.
  rewrite (download_pdf_writes http_get netloc_valid url download_dir w r filename
             Hget Hst Hct Hres Hmk Hfree).
  unfold outcome_of_body. rewrite Hbody. simpl. fold file_path.
  pose proof (os_makedirs_dir download_dir w Hmk) as Hdir.
  destruct (plain_name_path _ Hpd) as [Hdn Hde].
  rewrite (stat_plain _ _ Hdn Hde) in Hdir.
  split; [done|]. split; [|split; [|split; [|split; [|done]]]].
  - subst file_path. rewrite path_join_sanitize, Hdn, Hde. done.
  - apply lookup_insert_eq.
  - rewrite lookup_insert_ne; [done|].
    subst file_path. rewrite path_join_sanitize, Hdn, Hde. simpl.
    intros Heq. apply (f_equal length) in Heq. rewrite length_app in Heq.
    simpl in Heq. lia.
  - intros p Hp Hk. rewrite lookup_insert_ne; [|done].
    apply os_makedirs_other. by rewrite (fs_key_fixed _ Hde).
Qed.

Lemma download_saves_body_witness :
  let url := cp "https://mydentitycolor.com/sds/a.pdf" in
  let w := World ∅ [] [] in
  let res := download_pdf (fun _ _ _ => inr pdf_response) (fun _ => true)
               url (cp "PDFs") w in
  let file_path := path_join (cp "PDFs") (sanitize (cp "a.pdf")) in
  res.2 = inr (Downloaded (sanitize (cp "a.pdf")))
  /\ file_path = cp "PDFs" ++ ch_slash :: sanitize (cp "a.pdf")
  /\ fs res.1 !! file_path = Some (File (concat (body pdf_response)))
  /\ fs res.1 !! cp "PDFs" = Some Dir
  /\ (forall p, p <> file_path -> p <> cp "PDFs" ->
                fs res.1 !! p = fs w !! p)
  /\ console res.1 = console w ++ [msg_downloaded (sanitize (cp "a.pdf"))].
Proof.
  apply (download_saves_body (fun _ _ _ => inr pdf_response) (fun _ => true)
           (cp "https://mydentitycolor.com/sds/a.pdf") (cp "PDFs")
           (World ∅ [] []) pdf_response (cp "a.pdf"));
    vm_compute; reflexivity.
Defined.

(** X8.  A PDF response whose body breaks off, for a download directory
    given by its name and a sanitized name that is a file name of its own,
    when the target path is free: the outcome is the one of the exception,
    and the chunks that came before it stay in the file under the target
    path.  A later download of a PDF that resolves to the same name finds
    that file, reports [SkippedExisting] and leaves the partial file as it
    is. *)
Theorem broken_download_leaves_partial_file
    (http_get : nat -> bool -> str -> exn + response) (netloc_valid : str -> bool)
    (url download_dir : str) (w : world) (r : response) (filename : str) (e : exn) :
  http_get (length (requests w)) true url = inr r ->
  status_passes r = true ->
  is_pdf_response r = true ->
  resolve_filename netloc_valid
    (headers_get (headers r) (cp "Content-Disposition") []) url = inr filename ->
  body_error r = Some e ->
  plain_name download_dir = true ->
  plain_name (sanitize filename) = true ->
  (os_makedirs download_dir w).2 = inr tt ->
  stat (fs (os_makedirs download_dir w).1)
    (path_join download_dir (sanitize filename)) = None ->
  let res := download_pdf http_get netloc_valid url download_dir w in
  let file_path := path_join download_dir (sanitize filename) in
  res.2 = inr (if is_request_exception e then FetchFailed (exn_text e)
               else UnexpectedError (exn_text e))
  /\ fs res.1 !! file_path = Some (File (concat (body r)))
  /\ (forall http_get' nv' url' r' filename',
        http_get' (length (requests res.1)) true url' = inr r' ->
        status_passes r' = true ->
        is_pdf_response r' = true ->
        resolve_filename nv'
          (headers_get (headers r') (cp "Content-Disposition") []) url'
        = inr filename' ->
        sanitize filename' = sanitize filename ->
        let res' := download_pdf http_get' nv' url' download_dir res.1 in
        res'.2 = inr (SkippedExisting (sanitize filename))
        /\ fs res'.1 = fs res.1).
Proof.
  intros Hget Hst Hct Hres Hbody _ _ Hmk Hfree res file_path. subst res.
  rewrite (download_pdf_writes http_get netloc_valid url download_dir w r filename
             Hget Hst Hct Hres Hmk Hfree).
  unfold outcome_of_body. rewrite Hbody. simpl. fold file_path.
  pose proof (os_makedirs_dir download_dir w Hmk) as Hdir.
  destruct (target_path_plain _ _ _ Hdir Hfree) as [Hn He].
  pose proof (stat_absent _ _ Hn He Hfree) as Habs. fold file_path in Hn, He, Habs.
  split; [done|]. split; [apply lookup_insert_eq|].
  intros http_get' nv' url' r' filename' Hget' Hst' Hct' Hres' Hsame.
  set (w1 := World _ _ _) in *.
  assert (stat (fs w1) download_dir = Some Dir) as Hdir1.
  { eapply stat_mono; [|exact Hdir]. subst w1. simpl. by apply insert_subseteq. }
  assert (is_Some (stat (fs w1) (path_join download_dir (sanitize filename')))) as Hex.
  { rewrite Hsame. fold file_path. rewrite (stat_plain _ _ Hn He).
    subst w1. simpl. rewrite lookup_insert_eq. eauto. }
  rewrite (download_pdf_skips http_get' nv' url' download_dir w1 r' filename'
             Hget' Hst' Hct' Hres' Hdir1 Hex).
  simpl. by rewrite Hsame.
Qed.

Lemma broken_download_leaves_partial_file_witness :
  let url := cp "https://mydentitycolor.com/sds/a.pdf" in
  let w := World ∅ [] [] in
  let e := RequestException (cp "Connection broken") in
  let res := download_pdf (fun _ _ _ => inr broken_response) (fun _ => true)
               url (cp "PDFs") w in
  let file_path := path_join (cp "PDFs") (sanitize (cp "a.pdf")) in
  res.2 = inr (if is_request_exception e then FetchFailed (exn_text e)
               else UnexpectedError (exn_text e))
  /\ fs res.1 !! file_path = Some (File (concat (body broken_response)))
  /\ (forall http_get' nv' url' r' filename',
        http_get' (length (requests res.1)) true url' = inr r' ->
        status_passes r' = true ->
        is_pdf_response r' = true ->
        resolve_filename nv'
          (headers_get (headers r') (cp "Content-Disposition") []) url'
        = inr filename' ->
        sanitize filename' = sanitize (cp "a.pdf") ->
        let res' := download_pdf http_get' nv' url' (cp "PDFs") res.1 in
        res'.2 = inr (SkippedExisting (sanitize (cp "a.pdf")))
        /\ fs res'.1 = fs res.1).
Proof.
  apply (broken_download_leaves_partial_file
           (fun _ _ _ => inr broken_response) (fun _ => true)
           (cp "https://mydentitycolor.com/sds/a.pdf") (cp "PDFs")
           (World ∅ [] []) broken_response (cp "a.pdf")
           (RequestException (cp "Connection broken")));
    vm_compute; reflexivity.
Defined.

(** A string splits in one way only around a character that occurs once. *)
Lemma split_unique (c : N) (s e a b : str) :
  c ∉ s -> c ∉ e -> s ++ c :: e = a ++ c :: b -> c ∈ b -> False.
Proof.
  revert a. induction s as [|x s IH]; intros a Hs He Heq Hb.
  - destruct a as [|y a]; simpl in Heq.
    + injection Heq as ->. done.
    + injection Heq as <- ->. apply He.
      apply elem_of_app. right. by apply elem_of_cons; left.
  - apply not_elem_of_cons in Hs as [Hx Hs].
    destruct a as [|y a]; simpl in Heq.
    + injection Heq as ->. done.
    + injection Heq as _ Heq. by apply (IH a).
Qed.

(** X9.  The sanitized name holds no slash and no two dots in a row, so it is
    neither a path nor the parent directory: the target path is the download
    directory, a slash unless the directory is empty or ends in one, and the
    name; a download never creates a file outside its directory. *)
Theorem target_path_stays_inside download_dir filename :
  (ch_slash ∉ sanitize filename)
  /\ str_in (cp "..") (sanitize filename) = false
  /\ path_join download_dir (sanitize filename)
     = download_dir
       ++ (if str_eqb download_dir [] || endswith download_dir [ch_slash]
           then [] else [ch_slash])
       ++ sanitize filename.
Proof.
  split; [apply sanitize_no_slash|]. split; [|apply path_join_sanitize].
  destruct (str_in (cp "..") (sanitize filename)) eqn:E; [|done]. exfalso.
  apply str_in_infix in E as (a & b & E).
  change (cp "..") with [ch_dot; ch_dot] in E. simpl in E.
  rewrite sanitize_eq in E.
  destruct (sanitize_stem_shape (splitext filename).1) as (Hs & _).
  assert (ch_dot ∉ sanitize_stem (splitext filename).1) as Hd
    by (by apply stem_chars_absent).
  destruct (splitext_cases filename) as [Ex|(n & e & _ & Hde & _ & Ex)];
    rewrite Ex in *; simpl in *.
  - rewrite app_nil_r in E. apply Hd. rewrite E.
    apply elem_of_app. right. by apply elem_of_cons; left.
  - apply (split_unique ch_dot (sanitize_stem n) (lower e) a (ch_dot :: b)).
    + exact Hd.
    + by apply lower_small_absent.
    + exact E.
    + by apply elem_of_cons; left.
Qed.

(** ** Percent-decoding and the suffix test *)

Abbreviation ascii_str s := (Forall (fun c : N => c < 128) s).

Lemma unquote_to_bytes_plain s : ch_percent ∉ s -> unquote_to_bytes s = s.
Proof.
  induction s as [|c s IH]; [done|]. intros H.
  apply not_elem_of_cons in H as [Hc Hs]. simpl.
  destruct (N.eqb_spec c ch_percent); [done|]. by rewrite IH.
Qed.

Lemma unquote_to_bytes_cons c t :
  unquote_to_bytes (c :: t)
  = if c =? ch_percent then
      match t with
      | a :: b :: s' =>
          if is_hexdig a && is_hexdig b
          then (16 * hex_value a + hex_value b) :: unquote_to_bytes s'
          else c :: unquote_to_bytes t
      | _ => c :: unquote_to_bytes t
      end
    else c :: unquote_to_bytes t.
Proof. reflexivity. Qed.

(** Percent-decoding leaves a tail alone that begins with a character other
    than a hexadecimal digit and holds no percent sign. *)
Lemma unquote_to_bytes_tail n h c s :
  (length h <= n)%nat -> is_hexdig c = false -> ch_percent ∉ (c :: s) ->
  exists t, unquote_to_bytes (h ++ c :: s) = t ++ c :: s.
Proof.
  intros Hlen Hc Hp. revert h Hlen. induction n as [|n IH]; intros h Hlen.
  - destruct h; [|simpl in Hlen; lia]. exists []. by apply unquote_to_bytes_plain.
  - destruct h as [|x h]; [exists []; by apply unquote_to_bytes_plain|].
    simpl in Hlen.
    assert (exists t, x :: unquote_to_bytes (h ++ c :: s) = t ++ c :: s) as Hkeep.
    { destruct (IH h ltac:(lia)) as [t Ht]. exists (x :: t). by rewrite Ht. }
    change ((x :: h) ++ c :: s) with (x :: (h ++ c :: s)).
    rewrite unquote_to_bytes_cons.
    destruct (x =? ch_percent); [|exact Hkeep].
    destruct h as [|a h]; cbn [app].
    { destruct s as [|b s']; [exact Hkeep|]. rewrite Hc. exact Hkeep. }
    destruct h as [|b h]; cbn [app].
    { rewrite Hc, andb_false_r. exact Hkeep. }
    destruct (is_hexdig a && is_hexdig b); [|exact Hkeep].
    destruct (IH h ltac:(simpl in Hlen; lia)) as [t' Ht'].
    eexists (_ :: t'). by rewrite Ht'.
Qed.

Lemma cont_ascii c : c < 128 -> is_cont c = false.
Proof. unfold is_cont, in_range. intros. char_cases; reflexivity. Qed.

Lemma second_ascii b0 c : c < 128 -> second_ok b0 c = false.
Proof.
  unfold second_ok, is_cont, in_range. intros. char_cases; reflexivity.
Qed.

Lemma utf8_decode_ascii s : ascii_str s -> utf8_decode s = s.
Proof.
  induction 1 as [|c s Hc _ IH]; [done|]. simpl.
  destruct (N.ltb_spec c 128); [by rewrite IH|lia].
Qed.

(** Decoding leaves an ASCII tail alone: an ill-formed sequence before it
    ends where the tail begins. *)
Lemma utf8_decode_tail n bs s :
  (length bs <= n)%nat -> ascii_str s ->
  exists t, utf8_decode (bs ++ s) = t ++ s.
Proof.
  intros Hlen Hs.
  destruct s as [|c s']; [exists (utf8_decode bs); by rewrite !app_nil_r|].
  assert (is_cont c = false) as Hcont.
  { apply cont_ascii. by apply Forall_cons in Hs as [Hc _]. }
  assert (forall b0, second_ok b0 c = false) as Hsec.
  { intros b0. apply second_ascii. by apply Forall_cons in Hs as [Hc _]. }
  revert bs Hlen. induction n as [|n IH]; intros bs Hlen.
  - destruct bs; [|simpl in Hlen; lia]. exists []. by apply utf8_decode_ascii.
  - assert (forall r x, (length r <= n)%nat ->
              exists t, x :: utf8_decode (r ++ c :: s') = t ++ c :: s') as Hnext.
    { intros r x Hr. destruct (IH r Hr) as [t Ht]. exists (x :: t). by rewrite Ht. }
    destruct bs as [|b0 r0]; [exists []; by apply utf8_decode_ascii|].
    simpl in Hlen. cbn [app utf8_decode].
    destruct (b0 <? 128); [first [apply Hnext | apply (Hnext (_ :: _))]; simpl; lia|].
    destruct (in_range 194 223 b0).
    { destruct r0 as [|b1 r1]; cbn [app].
      - rewrite Hcont. apply (Hnext [] replacement). simpl. lia.
      - simpl in Hlen. destruct (is_cont b1); first [apply Hnext | apply (Hnext (_ :: _))]; simpl; lia. }
    destruct (in_range 224 239 b0).
    { destruct r0 as [|b1 r1]; cbn [app].
      - rewrite Hsec. apply (Hnext [] replacement). simpl. lia.
      - simpl in Hlen. destruct (second_ok b0 b1); [|first [apply Hnext | apply (Hnext (_ :: _))]; simpl; lia].
        destruct r1 as [|b2 r2]; cbn [app].
        + rewrite Hcont. apply (Hnext [] replacement). simpl. lia.
        + simpl in Hlen. destruct (is_cont b2); first [apply Hnext | apply (Hnext (_ :: _))]; simpl; lia. }
    destruct (in_range 240 244 b0); [|first [apply Hnext | apply (Hnext (_ :: _))]; simpl; lia].
    destruct r0 as [|b1 r1]; cbn [app].
    + rewrite Hsec. apply (Hnext [] replacement). simpl. lia.
    + simpl in Hlen. destruct (second_ok b0 b1); [|first [apply Hnext | apply (Hnext (_ :: _))]; simpl; lia].
      destruct r1 as [|b2 r2]; cbn [app].
      * rewrite Hcont. apply (Hnext [] replacement). simpl. lia.
      * simpl in Hlen. destruct (is_cont b2); [|first [apply Hnext | apply (Hnext (_ :: _))]; simpl; lia].
        destruct r2 as [|b3 r3]; cbn [app].
        -- rewrite Hcont. apply (Hnext [] replacement). simpl. lia.
        -- simpl in Hlen. destruct (is_cont b3); first [apply Hnext | apply (Hnext (_ :: _))]; simpl; lia.
Qed.

Lemma unquote_runs_ascii run s :
  ascii_str s -> unquote_runs run s = utf8_decode (unquote_to_bytes (run ++ s)).
Proof.
  intros Hs. revert run. induction Hs as [|c s Hc _ IH]; intros run; simpl.
  - by rewrite app_nil_r.
  - destruct (N.ltb_spec c 128); [|lia]. rewrite IH, <- app_assoc. done.
Qed.

(** [unquote] keeps an ASCII tail that begins with a character other than a
    hexadecimal digit and holds no percent sign, whatever stands before. *)
Lemma unquote_tail h c s :
  ascii_str (c :: s) -> is_hexdig c = false -> ch_percent ∉ (c :: s) ->
  exists t, unquote (h ++ c :: s) = t ++ c :: s.
Proof.
  intros Ha Hc Hp. unfold unquote.
  destruct (negb _); [by exists h|].
  generalize (@nil N) as run. induction h as [|x h IH]; intros run.
  - simpl app. rewrite (unquote_runs_ascii _ _ Ha).
    destruct (unquote_to_bytes_tail (length run) run c s (le_n _) Hc Hp) as [t ->].
    apply (utf8_decode_tail (length t) t (c :: s) (le_n _) Ha).
  - simpl. destruct (x <? 128); [apply IH|].
    destruct (IH []) as [t ->]. eexists (_ ++ x :: t). by rewrite <- app_assoc.
Qed.

(** A string whose lower case is [.pdf] is one of the spellings of [.pdf]:
    ASCII, with the dot first and without a percent sign. *)
Lemma lower_pdf_inv s :
  lower s = cp ".pdf" ->
  exists s', s = ch_dot :: s' /\ ascii_str s /\ ch_percent ∉ s.
Proof.
  assert (forall c, Forall (fun x => x ∈ cp ".pdf") (lower_char c) ->
                    c < 128 /\ c <> ch_percent) as Hchar.
  { intros c. unfold lower_char, in_range.
    change (cp ".pdf") with [46; 112; 100; 102].
    char_cases; rewrite ?Forall_cons, !elem_of_cons, ?elem_of_nil;
      intros ?; unfold ch_percent; intuition lia. }
  intros Hl.
  assert (Forall (fun c => c < 128 /\ c <> ch_percent) s) as Hall.
  { apply Forall_forall. intros c Hc. apply Hchar. apply Forall_forall.
    intros x Hx. rewrite <- Hl. unfold lower.
    apply list_elem_of_In, in_flat_map. exists c.
    split; by apply list_elem_of_In. }
  destruct s as [|c s]; [done|]. exists s.
  assert (c = ch_dot) as ->.
  { apply (lower_char_small ch_dot c); [done|].
    rewrite lower_cons in Hl. destruct (lower_char c) as [|x l] eqn:E.
    - unfold lower_char in E. repeat case_match; discriminate.
    - injection Hl as -> _. by apply elem_of_cons; left. }
  split; [done|]. split.
  - eapply Forall_impl; [exact Hall|]. by intros x [? _].
  - intros Hin. rewrite Forall_forall in Hall. by destruct (Hall _ Hin) as [_ ?].
Qed.

(** X10.  An [href] that ends in [.pdf], in any spelling of its letters, is
    taken for a PDF link whatever stands before the suffix: percent-decoding
    never eats into it.  So [parse_html] returns every anchor of the page
    whose [href] ends so. *)
Theorem literal_pdf_suffix_is_extracted
    (BeautifulSoup : str -> list tag) (html : str) (h suffix : str) :
  lower suffix = cp ".pdf" ->
  is_pdf_href (h ++ suffix) = true
  /\ (forall t,
        t ∈ BeautifulSoup html -> tag_name t = cp "a" ->
        attr_get (attrs t) (cp "href") = Some (h ++ suffix) ->
        (h ++ suffix) ∈ parse_html BeautifulSoup html).
Proof.
  intros Hl.
  assert (is_pdf_href (h ++ suffix) = true) as Hpdf.
  { destruct (lower_pdf_inv suffix Hl) as (s' & -> & Ha & Hp).
    destruct (unquote_tail h ch_dot s' Ha eq_refl Hp) as [t Ht].
    unfold is_pdf_href. rewrite Ht, lower_app, Hl.
    apply endswith_suffix. eauto. }
  split; [exact Hpdf|]. intros t Hin Hname Hhref.
  unfold parse_html. rewrite parse_html_loop_filter, find_all_hrefs. simpl.
  apply list_elem_of_In, filter_In. split; [|exact Hpdf].
  apply list_elem_of_In. unfold anchor_hrefs. apply list_elem_of_omap.
  exists t. split; [done|]. by rewrite Hname, str_eqb_refl.
Qed.

Lemma literal_pdf_suffix_is_extracted_witness :
  is_pdf_href (cp "/docs/100%" ++ cp ".PdF") = true
  /\ (forall t,
        t ∈ example_soup -> tag_name t = cp "a" ->
        attr_get (attrs t) (cp "href") = Some (cp "/docs/100%" ++ cp ".PdF") ->
        (cp "/docs/100%" ++ cp ".PdF") ∈ parse_html (fun _ => example_soup) []).
Proof.
  apply (literal_pdf_suffix_is_extracted (fun _ => example_soup) []
           (cp "/docs/100%") (cp ".PdF")).
  vm_compute. reflexivity.
Defined.

(** ** A second run *)

(** The network answers a request the same way whenever it is sent. *)
Definition steady_network (http_get : nat -> bool -> str -> exn + response)
  : Prop :=
  forall n n' stream url, http_get n stream url = http_get n' stream url.

(** [os.makedirs] fails again when entries have been added. *)
Lemma os_makedirs_fails_mono name w w' e :
  fs w ⊆ fs w' -> (os_makedirs name w).2 = inl e ->
  exists e', os_makedirs name w' = (w', inl e').
Proof.
  intros Hsub. unfold os_makedirs.
  destruct (stat (fs w) name) as [[d|]|] eqn:Es; simpl.
  - rewrite (stat_mono _ _ _ _ Hsub Es). eauto.
  - done.
  - destruct (str_eqb name []) eqn:Hn.
    + apply str_eqb_eq in Hn as ->. simpl. eauto.
    + destruct (fs w !! fs_key name) as [x|] eqn:Ek; [|done]. intros _.
      rewrite map_subseteq_spec in Hsub. pose proof (Hsub _ _ Ek) as Ek'.
      unfold stat in *. rewrite Hn in *.
      destruct (str_eqb (fs_key name) []); [done|].
      rewrite Ek in Es. rewrite Ek'.
      destruct x as [d|]; [|done].
      destruct (endswith name [ch_slash]); [|done].
      eauto.
Qed.

Lemma os_makedirs_present name w :
  stat (fs w) name = Some Dir -> os_makedirs name w = (w, inr tt).
Proof. intros H. unfold os_makedirs. by rewrite H. Qed.

Section Again.

Variable http_get : nat -> bool -> str -> exn + response.
Variable netloc_valid : str -> bool.
Variable validators_url : str -> bool.
Variable BeautifulSoup : str -> list tag.

Hypothesis Hsteady : steady_network http_get.

(** A download whose traces are in the file system changes nothing. *)
Lemma download_pdf_stable url download_dir w w' :
  fs (download_pdf http_get netloc_valid url download_dir w).1 ⊆ fs w' ->
  fs (download_pdf http_get netloc_valid url download_dir w').1 = fs w'.
Proof.
  intros Hsub.
  assert (fs w ⊆ fs w') as Hww.
  { etrans; [|exact Hsub].
    by destruct (download_pdf_effects http_get netloc_valid url download_dir w)
      as (? & ? & -> & ? & _). }
  rewrite download_pdf_fs in *.
  unfold download_pdf_try, bind, requests_get in *.
  rewrite (Hsteady (length (requests w')) (length (requests w))).
  destruct (http_get (length (requests w)) true url) as [e|resp]; simpl in *; [done|].
  unfold raise_for_status in *.
  destruct ((400 <=? status_code resp)%Z && (status_code resp <? 600)%Z);
    simpl in *; [done|].
  destruct (str_in _ _); simpl in *; [|done].
  destruct (resolve_filename _ _ _) as [e|filename]; simpl in *; [done|].
  rewrite os_makedirs_frame in Hsub. rewrite os_makedirs_frame.
  pose proof (os_makedirs_effects download_dir w) as (Hmsub & _).
  pose proof (os_makedirs_dir download_dir w) as Hmdir.
  destruct (os_makedirs download_dir w) as [w2 [e|[]]] eqn:Emk; simpl in *.
  - destruct (os_makedirs_fails_mono download_dir w w' e Hww) as [e' He'];
      [by rewrite Emk|].
    rewrite He'. done.
  - assert (stat (fs w2) download_dir = Some Dir) as Hdir by (by apply Hmdir).
    set (path := path_join download_dir (sanitize filename)) in *.
    assert (fs w2 ⊆ fs w' /\ is_Some (stat (fs w') path)) as [Hw2 Hex'].
    { revert Hsub. case_bool_decide as Hex; simpl.
      - intros Hsub. split; [done|]. destruct Hex as [x Hx]. exists x.
        by eapply stat_mono.
      - assert (stat (fs w2) path = None) as Hfree.
        { destruct (stat (fs w2) path) eqn:E; [destruct Hex; eauto|done]. }
        destruct (target_path_plain _ _ _ Hdir Hfree) as [Hn He].
        pose proof (stat_absent _ _ Hn He Hfree) as Habs.
        fold path in Hn, He, Habs.
        unfold open_wb. rewrite Hn, He. simpl. rewrite Habs.
        rewrite (write_chunks path (body resp) _ []); [|apply lookup_insert_eq].
        simpl. rewrite insert_insert_eq.
        intros Hsub.
        assert (<[path := File (concat (body resp))]> (fs w2) ⊆ fs w') as Hins.
        { by destruct (body_error resp). }
        split.
        + etrans; [|exact Hins]. by apply insert_subseteq.
        + rewrite (stat_plain _ _ Hn He). rewrite map_subseteq_spec in Hins.
          rewrite (Hins path (File (concat (body resp)))); [eauto|].
          apply lookup_insert_eq. }
    rewrite (os_makedirs_present download_dir w'); [|by eapply stat_mono].
    simpl. rewrite (bool_decide_eq_true_2 _ Hex'). done.
Qed.

(** So does the loop of [main]. *)
Lemma download_loop_stable links download_dir w w' :
  fs (download_loop http_get netloc_valid validators_url links download_dir w).1
  ⊆ fs w' ->
  fs (download_loop http_get netloc_valid validators_url links download_dir w').1
  = fs w'.
Proof.
  revert w w'. induction links as [|l links IH]; intros w w' Hsub; [done|].
  rewrite download_loop_cons in *.
  destruct (negb (validate_url validators_url l)); [|by apply (IH w)].
  pose proof (download_pdf_stable (site_origin ++ l) download_dir w w') as Hone.
  destruct (download_pdf_effects http_get netloc_valid (site_origin ++ l)
              download_dir w) as (w1 & o & E1 & _).
  destruct (download_pdf_effects http_get netloc_valid (site_origin ++ l)
              download_dir w') as (w1' & o' & E1' & _).
  rewrite E1 in *. rewrite E1' in *. simpl in Hone.
  destruct (download_loop_effects http_get netloc_valid validators_url
              links download_dir w1) as (w2 & E2 & Hgrow & _).
  rewrite <- Hone.
  - apply (IH w1). rewrite Hone; [done|]. etrans; [exact Hgrow|].
    by rewrite E2 in Hsub.
  - etrans; [exact Hgrow|]. by rewrite E2 in Hsub.
Qed.

Lemma get_url_content_steady url w w' :
  (get_url_content http_get url w').2 = (get_url_content http_get url w).2.
Proof.
  unfold get_url_content, try_except, bind, requests_get.
  rewrite (Hsteady (length (requests w')) (length (requests w))).
  destruct (http_get _ _ _) as [e|r]; simpl.
  - destruct (is_request_exception e); reflexivity.
  - destruct (body_error r) as [e|]; simpl.
    + destruct (is_request_exception e); reflexivity.
    + unfold raise_for_status. destruct (_ && _)%bool; reflexivity.
Qed.

Lemma main_again_not_cached w :
  (forall d, fs w !! local_html_file <> Some (File d)) ->
  let first := main http_get netloc_valid validators_url BeautifulSoup w in
  let second := main http_get netloc_valid validators_url BeautifulSoup first.1 in
  fs second.1 = fs first.1 /\ second.2 = first.2.
Proof.
  intros Hc. cbv zeta. rewrite (main_not_cached _ _ _ _ w Hc).
  pose proof (get_url_content_fs http_get url_to_fetch w) as Hfs.
  destruct (get_url_content http_get url_to_fetch w) as [w1 res] eqn:Eg.
  simpl in Hfs.
  assert (forall d, fs w1 !! local_html_file <> Some (File d)) as Hc1.
  { intros d. rewrite Hfs. apply Hc. }
  pose proof (get_url_content_fs http_get url_to_fetch w1) as Hfs1.
  pose proof (get_url_content_steady url_to_fetch w w1) as Hres.
  rewrite Eg in Hres.
  destruct (get_url_content http_get url_to_fetch w1) as [w1' res'] eqn:Eg'.
  simpl in Hfs1, Hres. subst res'.
  pose proof (main_not_cached http_get netloc_valid validators_url BeautifulSoup
                w1 Hc1) as Hm1.
  rewrite Eg' in Hm1.
  destruct res as [e|[content|]].
  - simpl. rewrite Hm1. done.
  - destruct (fs w1 !! local_html_file) as [[d|]|] eqn:Ec.
    + by destruct (Hc1 d).
    + rewrite (append_cache_dir _ _ Ec). simpl.
      rewrite Hm1, append_cache_dir; [done|]. by rewrite Hfs1.
    + rewrite (append_cache_new _ _ Ec).
      set (w2 := set_fs _ w1).
      destruct (download_loop_effects http_get netloc_valid validators_url
                  (parse_html BeautifulSoup (universal_newlines content))
                  (cp "PDFs") w2)
        as (w3 & E3 & Hgrow & _).
      rewrite E3. simpl.
      assert (fs w3 !! local_html_file = Some (File content)) as Ec3.
      { rewrite map_subseteq_spec in Hgrow. apply Hgrow. apply lookup_insert_eq. }
      rewrite (main_cached _ _ _ _ w3 content Ec3).
      split.
      * apply (download_loop_stable _ _ w2). by rewrite E3.
      * by destruct (download_loop_effects http_get netloc_valid validators_url
                (parse_html BeautifulSoup (universal_newlines content))
                (cp "PDFs") w3) as (w4 & -> & _).
  - simpl. rewrite Hm1. done.
Qed.

Lemma main_again w :
  let first := main http_get netloc_valid validators_url BeautifulSoup w in
  let second := main http_get netloc_valid validators_url BeautifulSoup first.1 in
  fs second.1 = fs first.1 /\ second.2 = first.2.
Proof.
  cbv zeta.
  destruct (fs w !! local_html_file) as [[d|]|] eqn:Ec.
  - rewrite (main_cached _ _ _ _ w d Ec).
    destruct (download_loop_effects http_get netloc_valid validators_url
                (parse_html BeautifulSoup (universal_newlines d)) (cp "PDFs") w)
      as (w1 & E1 & Hgrow & _).
    rewrite E1. simpl.
    assert (fs w1 !! local_html_file = Some (File d)) as Ec1.
    { rewrite map_subseteq_spec in Hgrow. by apply Hgrow. }
    rewrite (main_cached _ _ _ _ w1 d Ec1).
    split.
    + apply (download_loop_stable _ _ w). by rewrite E1.
    + by destruct (download_loop_effects http_get netloc_valid validators_url
                (parse_html BeautifulSoup (universal_newlines d)) (cp "PDFs") w1)
        as (w2 & -> & _).
  - apply main_again_not_cached. intros d. by rewrite Ec.
  - apply main_again_not_cached. intros d. by rewrite Ec.
Qed.

End Again.



(** ** The filename of the header *)

Definition ch_equals : N := 61.

(** What a greedy item has consumed when the match succeeds. *)
Lemma many_inv it k acc s r :
  many it k acc s = Some r ->
  exists t u r',
    s = t ++ u /\ Forall (fun c => accepts it c = true) t
    /\ k u = Some r' /\ r = keep it (acc ++ t) r'.
Proof.
  revert acc. induction s as [|c s IH]; intros acc; simpl.
  - intros H. apply fmap_Some in H as (r' & Hk & ->).
    exists [], [], r'. rewrite (app_nil_r acc). split; [done|]. split; [constructor|done].
  - assert (keep it acc <$> k (c :: s) = Some r ->
            exists t u r',
              c :: s = t ++ u /\ Forall (fun c => accepts it c = true) t
              /\ k u = Some r' /\ r = keep it (acc ++ t) r') as Hstop.
    { intros H. apply fmap_Some in H as (r' & Hk & ->).
      exists [], (c :: s), r'. rewrite (app_nil_r acc).
      split; [done|]. split; [constructor|done]. }
    destruct (accepts it c) eqn:Hc; [|exact Hstop].
    destruct (many it k (acc ++ [c]) s) as [r0|] eqn:Em; [|exact Hstop].
    intros [= <-]. apply IH in Em as (t & u & r' & -> & Hall & Hk & ->).
    exists (c :: t), u, r'. rewrite <- app_assoc.
    split; [done|]. split; [by constructor|done].
Qed.

(** An item outside the group consumes a prefix and leaves the group to the
    rest of the pattern. *)
Lemma match_here_step it p s g :
  grouped it = false -> match_here (it :: p) s = Some g ->
  exists x s', s = x ++ s' /\ match_here p s' = Some g.
Proof.
  intros Hg. cbn [match_here].
  assert (forall a s', keep it a <$> match_here p s' = Some g ->
                       match_here p s' = Some g) as Hkeep.
  { intros a s' H. apply fmap_Some in H as (r' & Hk & ->).
    by rewrite keep_plain. }
  destruct (rep it).
  - destruct s as [|c s]; [done|]. destruct (accepts it c); [|done].
    intros H. exists [c], s. split; [done|]. by eapply Hkeep.
  - destruct s as [|c s].
    + intros H. exists [], []. split; [done|]. by eapply Hkeep.
    + destruct (accepts it c).
      * destruct (keep it [c] <$> match_here p s) as [r0|] eqn:E.
        -- intros [= <-]. exists [c], s. split; [done|]. by eapply Hkeep.
        -- intros H. exists [], (c :: s). split; [done|]. by eapply Hkeep.
      * intros H. exists [], (c :: s). split; [done|]. by eapply Hkeep.
  - intros H. apply many_inv in H as (t & u & r' & -> & _ & Hk & ->).
    exists t, u. split; [done|]. by rewrite keep_plain.
  - destruct s as [|c s]; [done|]. destruct (accepts it c); [|done].
    intros H. apply many_inv in H as (t & u & r' & -> & _ & Hk & ->).
    exists (c :: t), u. split; [done|]. by rewrite keep_plain.
Qed.

Lemma match_here_skip pre p s g :
  Forall (fun it => grouped it = false) pre ->
  match_here (pre ++ p) s = Some g ->
  exists x s', s = x ++ s' /\ match_here p s' = Some g.
Proof.
  intros Hpre. revert s. induction Hpre as [|it pre Hit _ IH]; intros s H.
  - by exists [], s.
  - apply (match_here_step it (pre ++ p) s g Hit) in H as (x & s' & -> & H).
    apply IH in H as (y & s'' & -> & H).
    exists (x ++ y), s''. by rewrite <- app_assoc.
Qed.

(** The equals sign of the pattern is one of the header. *)
Lemma match_here_equals p s g :
  match_here (Item (is_char ch_equals) One false :: p) s = Some g ->
  exists s', s = ch_equals :: s' /\ match_here p s' = Some g.
Proof.
  cbn [match_here rep accepts]. destruct s as [|c s]; [done|].
  unfold is_char. destruct (N.eqb_spec c ch_equals) as [->|]; [|done].
  intros H. apply fmap_Some in H as (r' & Hk & ->). exists s. by split.
Qed.

(** The group: a greedy item under [+], which yields what it has consumed. *)
Lemma match_here_group it p s g :
  grouped it = true -> rep it = Plus ->
  match_here (it :: p) s = Some g ->
  g <> [] /\ Forall (fun c => accepts it c = true) g /\ exists b, s = g ++ b.
Proof.
  intros Hg Hr. cbn [match_here]. rewrite Hr.
  destruct s as [|c s]; [done|]. destruct (accepts it c) eqn:Hc; [|done].
  intros H. apply many_inv in H as (t & u & r' & -> & Hall & Hk & ->).
  rewrite keep_group by done. simpl. split; [done|]. split; [by constructor|].
  by exists u.
Qed.

Lemma search_inv p s g :
  search p s = Some g -> exists x s', s = x ++ s' /\ match_here p s' = Some g.
Proof.
  induction s as [|c s IH]; simpl.
  - destruct (match_here p []) eqn:E; [|done]. intros [= <-]. by exists [], [].
  - destruct (match_here p (c :: s)) eqn:E.
    + intros [= <-]. by exists [], (c :: s).
    + intros H. apply IH in H as (x & s' & -> & H). by exists (c :: x), s'.
Qed.

(** A pattern that reads some items, the equals sign, some more items and
    then the group: the group is a piece of the subject, after an equals
    sign. *)
Lemma search_piece pre1 pre2 it post s g :
  Forall (fun i => grouped i = false) pre1 ->
  Forall (fun i => grouped i = false) pre2 ->
  grouped it = true -> rep it = Plus ->
  search (pre1 ++ Item (is_char ch_equals) One false :: pre2 ++ it :: post) s
  = Some g ->
  g <> [] /\ Forall (fun c => accepts it c = true) g
  /\ exists a b, s = a ++ g ++ b /\ ch_equals ∈ a.
Proof.
  intros H1 H2 Hg Hr H.
  apply search_inv in H as (x0 & s0 & -> & H).
  apply match_here_skip in H as (x1 & s1 & -> & H); [|done].
  apply match_here_equals in H as (s2 & -> & H).
  apply match_here_skip in H as (x3 & s3 & -> & H); [|done].
  apply match_here_group in H as (Hne & Hall & b & ->); [|done|done].
  split; [done|]. split; [done|].
  exists (x0 ++ x1 ++ ch_equals :: x3), b. split.
  - by rewrite <- !app_assoc.
  - rewrite !elem_of_app, elem_of_cons. tauto.
Qed.

Lemma word_ic_plain w : Forall (fun i => grouped i = false) (word_ic w).
Proof.
  unfold word_ic. apply Forall_forall. intros i Hi.
  by apply list_elem_of_In, in_map_iff in Hi as (l & <- & _).
Qed.

Lemma search_extended s g :
  search extended_re s = Some g ->
  g <> [] /\ Forall (fun c => not_semi_crlf c = true) g
  /\ exists a b, s = a ++ g ++ b /\ ch_equals ∈ a.
Proof.
  intros H.
  apply (search_piece
           (word_ic (cp "filename")
            ++ [Item (is_char 42) One false; Item is_space Star false])
           [Item is_space Star false; Item not_apostrophe Star false;
            Item (is_char 39) One false; Item (is_char 39) One false]
           (Item not_semi_crlf Plus true) []); try done.
  - apply Forall_app. split; [apply word_ic_plain|]. by repeat constructor.
  - by repeat constructor.
Qed.

Lemma search_simple s g :
  search simple_re s = Some g ->
  g <> [] /\ Forall (fun c => not_quote_semi_crlf c = true) g
  /\ exists a b, s = a ++ g ++ b /\ ch_equals ∈ a.
Proof.
  intros H.
  apply (search_piece
           (word_ic (cp "filename") ++ [Item is_space Star false])
           [Item is_space Star false; Item (is_char ch_quote) Opt false]
           (Item not_quote_semi_crlf Plus true)
           [Item (is_char ch_quote) Opt false]); try done.
  - apply Forall_app. split; [apply word_ic_plain|]. by repeat constructor.
  - by repeat constructor.
Qed.

(** X12.  Where the filename comes from.  Either it is the fallback of the
    URL, or it is cut out of the [Content-Disposition] header as it stands
    there: a piece of the header that is not empty, comes after an equals
    sign and holds no semicolon, carriage return or line feed.  The group of
    the extended pattern loses the double quotes at its ends and is not
    percent-decoded; the group of the simple pattern holds no double quote
    and is the filename as it is.  A header without an equals sign, an
    absent header among them, leaves the name to the URL. *)
Theorem filename_is_cut_from_header nv content_disposition url :
  resolve_filename nv content_disposition url = fallback_filename nv url
  \/ (exists g a b,
        content_disposition = a ++ g ++ b /\ ch_equals ∈ a /\ g <> []
        /\ Forall (fun c => not_semi_crlf c = true) g
        /\ search extended_re content_disposition = Some g
        /\ resolve_filename nv content_disposition url = inr (strip ch_quote g))
  \/ (exists g a b,
        content_disposition = a ++ g ++ b /\ ch_equals ∈ a /\ g <> []
        /\ Forall (fun c => not_quote_semi_crlf c = true) g
        /\ search extended_re content_disposition = None
        /\ resolve_filename nv content_disposition url = inr g).
Proof.
  unfold resolve_filename.
  destruct (search extended_re content_disposition) as [g|] eqn:Ee.
  - right. left. destruct (search_extended _ _ Ee) as (Hne & Hall & a & b & -> & Ha).
    by exists g, a, b.
  - destruct (search simple_re content_disposition) as [g|] eqn:Es; [|by left].
    right. right.
    destruct (search_simple _ _ Es) as (Hne & Hall & a & b & -> & Ha).
    exists g, a, b. do 5 (split; [done|]).
    rewrite strip_fixed; [done| |].
    + destruct g as [|c g]; [done|]. apply Forall_cons in Hall as [Hc _].
      intros [= ->]. done.
    + intros Hl. apply last_Some in Hl as [t ->].
      apply Forall_app in Hall as [_ Hall]. apply Forall_cons in Hall as [Hc _]. done.
Qed.

(** ** The download directory *)

Lemma os_makedirs_file name w d :
  stat (fs w) name = Some (File d) ->
  os_makedirs name w = (w, inl (OSError (cp "File exists"))).
Proof. intros H. unfold os_makedirs. by rewrite H. Qed.

(** The outcomes that tell of a file at the target path. *)
Definition names_a_file (o : outcome) : bool :=
  match o with Downloaded _ | SkippedExisting _ => true | _ => false end.

Lemma outcome_of_exn_no_file e : names_a_file (outcome_of_exn e) = false.
Proof. unfold outcome_of_exn. by destruct (is_request_exception e). Qed.

Section Blocked.

Variable http_get : nat -> bool -> str -> exn + response.
Variable netloc_valid : str -> bool.
Variable validators_url : str -> bool.
Variable BeautifulSoup : str -> list tag.

Lemma download_pdf_blocked url download_dir w d :
  stat (fs w) download_dir = Some (File d) ->
  exists w' o,
    download_pdf http_get netloc_valid url download_dir w = (w', inr o)
    /\ fs w' = fs w /\ names_a_file o = false.
Proof.
  intros Hd. rewrite download_pdf_catches.
  unfold download_pdf_try, bind, requests_get.
  destruct (http_get (length (requests w)) true url) as [e|resp]; simpl.
  { eexists _, _. split; [reflexivity|]. split; [done|apply outcome_of_exn_no_file]. }
  unfold raise_for_status.
  destruct ((400 <=? status_code resp)%Z && (status_code resp <? 600)%Z); simpl.
  { eexists _, _. split; [reflexivity|]. done. }
  destruct (str_in _ _); simpl.
  2:{ eexists _, _. split; [reflexivity|]. done. }
  destruct (resolve_filename _ _ _) as [e|filename]; simpl.
  { eexists _, _. split; [reflexivity|]. split; [done|apply outcome_of_exn_no_file]. }
  rewrite os_makedirs_frame, (os_makedirs_file _ _ _ Hd). simpl.
  eexists _, _. split; [reflexivity|]. done.
Qed.

Lemma download_loop_blocked links download_dir w d :
  stat (fs w) download_dir = Some (File d) ->
  fs (download_loop http_get netloc_valid validators_url links download_dir w).1
  = fs w.
Proof.
  revert w. induction links as [|l links IH]; intros w Hd; [done|].
  rewrite download_loop_cons.
  destruct (negb (validate_url validators_url l)); [|by apply IH].
  destruct (download_pdf_blocked (site_origin ++ l) download_dir w d Hd)
    as (w1 & o & -> & Hfs & _).
  rewrite IH; [done|]. by rewrite Hfs.
Qed.

Lemma main_blocked w d p :
  stat (fs w) (cp "PDFs") = Some (File d) ->
  p <> local_html_file ->
  fs (main http_get netloc_valid validators_url BeautifulSoup w).1 !! p = fs w !! p.
Proof.
  intros Hd Hp.
  destruct (fs w !! local_html_file) as [[c|]|] eqn:Ec.
  - rewrite (main_cached _ _ _ _ w c Ec). by rewrite (download_loop_blocked _ _ _ d).
  - rewrite main_not_cached; [|intros c; by rewrite Ec].
    pose proof (get_url_content_fs http_get url_to_fetch w) as Hfs.
    destruct (get_url_content http_get url_to_fetch w) as [w1 [e|[content|]]];
      simpl in Hfs; try (simpl; by rewrite Hfs).
    rewrite append_cache_dir; [|by rewrite Hfs]. simpl. by rewrite Hfs.
  - rewrite main_not_cached; [|intros c; by rewrite Ec].
    pose proof (get_url_content_fs http_get url_to_fetch w) as Hfs.
    destruct (get_url_content http_get url_to_fetch w) as [w1 [e|[content|]]];
      simpl in Hfs; try (simpl; by rewrite Hfs).
    rewrite append_cache_new; [|by rewrite Hfs].
    rewrite (download_loop_blocked _ _ _ d).
    + simpl. rewrite lookup_insert_ne; [by rewrite Hfs|done].
    + simpl. rewrite <- Hd, !stat_plain; try (vm_compute; reflexivity).
      rewrite lookup_insert_ne; [by rewrite Hfs|]. vm_compute. discriminate.
Qed.

End Blocked.

(** X13.  When the path of the download directory is taken by a regular
    file, nothing is saved.  Every download ends with an outcome that names
    no file (in particular [os.makedirs] fails for a PDF response, which
    [download_pdf] reports as an unexpected error) and leaves the file system
    as it is; so does the loop of [main]; and a run of [main] with a regular
    file at [PDFs] changes no path but that of the cached page. *)
Theorem blocked_directory_saves_nothing
    (http_get : nat -> bool -> str -> exn + response)
    (netloc_valid validators_url : str -> bool)
    (BeautifulSoup : str -> list tag)
    (download_dir : str) (w : world) (d : str) :
  stat (fs w) download_dir = Some (File d) ->
  (forall url,
     exists w' o,
       download_pdf http_get netloc_valid url download_dir w = (w', inr o)
       /\ fs w' = fs w /\ names_a_file o = false)
  /\ (forall url r filename,
        http_get (length (requests w)) true url = inr r ->
        status_passes r = true -> is_pdf_response r = true ->
        resolve_filename netloc_valid
          (headers_get (headers r) (cp "Content-Disposition") []) url
        = inr filename ->
        exists reason,
          (download_pdf http_get netloc_valid url download_dir w).2
          = inr (UnexpectedError reason))
  /\ (forall links,
        fs (download_loop http_get netloc_valid validators_url links
              download_dir w).1 = fs w)
  /\ (download_dir = cp "PDFs" ->
      forall p, p <> local_html_file ->
        fs (main http_get netloc_valid validators_url BeautifulSoup w).1 !! p
        = fs w !! p).
Proof.
  intros Hd. split; [|split; [|split]].
  - intros url. by apply (download_pdf_blocked _ _ _ _ _ d).
  - intros url r filename Hget Hst Hct Hres. rewrite download_pdf_catches.
    unfold download_pdf_try, bind, requests_get. rewrite Hget. simpl.
    unfold raise_for_status. unfold status_passes in Hst.
    apply negb_true_iff in Hst. rewrite Hst. simpl.
    unfold is_pdf_response in Hct. rewrite Hct. simpl. rewrite Hres. simpl.
    rewrite os_makedirs_frame, (os_makedirs_file _ _ _ Hd). simpl. eauto.
  - intros links. by apply (download_loop_blocked _ _ _ _ _ _ d).
  - intros -> p Hp. by apply (main_blocked _ _ _ _ _ d).
Qed.

(** A file system in which [PDFs] is a regular file. *)
Definition fs_blocked : gmap str node := <[cp "PDFs" := File (cp "notes")]> ∅.

Lemma blocked_directory_saves_nothing_witness :
  let w := World fs_blocked [] [] in
  let nv := fun _ : str => true in
  let vu := fun _ : str => false in
  let soup := fun _ : str => example_soup in
  (forall url,
     exists w' o,
       download_pdf example_get nv url (cp "PDFs") w = (w', inr o)
       /\ fs w' = fs w /\ names_a_file o = false)
  /\ (forall url r filename,
        example_get (length (requests w)) true url = inr r ->
        status_passes r = true -> is_pdf_response r = true ->
        resolve_filename nv
          (headers_get (headers r) (cp "Content-Disposition") []) url
        = inr filename ->
        exists reason,
          (download_pdf example_get nv url (cp "PDFs") w).2
          = inr (UnexpectedError reason))
  /\ (forall links,
        fs (download_loop example_get nv vu links (cp "PDFs") w).1 = fs w)
  /\ (cp "PDFs" = cp "PDFs" ->
      forall p, p <> local_html_file ->
        fs (main example_get nv vu soup w).1 !! p = fs w !! p).
Proof.
  apply (blocked_directory_saves_nothing example_get (fun _ => true)
           (fun _ => false) (fun _ => example_soup) (cp "PDFs")
           (World fs_blocked [] []) (cp "notes")).
  vm_compute. reflexivity.
Defined.

(** ** A name that sanitizes to nothing *)


(** A PDF whose header names it with punctuation only. *)
Definition nameless_response : response :=
  Response 200
    [(cp "Content-Type", cp "application/pdf");
     (cp "Content-Disposition", cp "attachment; filename=!!!")]
    [cp "%PDF-1.7"] None.

